(** * livegollection-client: the client state machine and its message codec

    A shallow embedding of the two versions of the [LiveGollection] class
    of this repository:

    - [Simple]: [src/index.ts], where the five callbacks are plain fields
      with no-op defaults and nothing is buffered;
    - [Strict]: the version of the class that is generic in the type of
      the identifier, and caches outgoing updates until the websocket is
      open and incoming updates until the three handlers [oncreate],
      [onupdate] and [ondelete] are set.

    Conventions of the model.

    - TypeScript types are erased at run time, so every value the class
      touches is a [jsval].  Objects are association lists in insertion
      order.
    - The host functions are not re-implemented.  A websocket payload
      [ev.data] is identified by what [JSON.parse] makes of it
      ([payload]); a frame handed to [ws.send] is identified by the object
      given to [JSON.stringify] ([Ws_send]).
    - Consumer handlers are opaque: calling one is recorded as an event of
      the trace, it returns normally and does not call back into the
      client.  Items are values: the consumer does not mutate an item
      between a call of [create]/[update]/[delete] and the flush.
    - JavaScript exceptions are explicit ([completion]); what a method did
      to the fields before it threw is kept. *)

From Stdlib Require Import List String Bool ZArith Arith Lia.
Import ListNotations.
Local Open Scope string_scope.
Local Open Scope list_scope.

(* ===================================================================== *)
(** * JavaScript values and the operators the class uses *)
(* ===================================================================== *)

Module JS.

#[local] Set Warnings "-register-all".

Inductive jsval : Type :=
| JUndefined
| JNull
| JBool (b : bool)
| JNum (n : Z)
| JStr (s : string)
| JArr (elems : list jsval)
| JObj (props : list (string * jsval)).

(** An object: its own properties, in insertion order. *)
Definition object : Type := list (string * jsval).

Inductive js_error : Type := SyntaxError | TypeError.

(** The outcome of evaluating an expression or running a method. *)
Inductive completion (A : Type) : Type :=
| Normal (a : A)
| Throw (e : js_error).
Arguments Normal {A} a.
Arguments Throw {A} e.

Definition cbind {A B} (c : completion A) (f : A -> completion B) : completion B :=
  match c with
  | Normal a => f a
  | Throw e => Throw e
  end.

(** [a && b] on fallible operands: [b] is evaluated only when [a] is true. *)
Definition cand (a b : completion bool) : completion bool :=
  cbind a (fun x => if x then b else Normal false).

Fixpoint lookup (k : string) (o : object) : option jsval :=
  match o with
  | [] => None
  | (k', v) :: o' => if String.eqb k' k then Some v else lookup k o'
  end.

Definition has_own (k : string) (o : object) : bool :=
  match lookup k o with Some _ => true | None => false end.

(** [o.k] on an object: [undefined] when the property is missing. *)
Definition prop (k : string) (o : object) : jsval :=
  match lookup k o with Some v => v | None => JUndefined end.

(** [o.k = v]: overwrite in place, or append a new property. *)
Fixpoint set_prop (k : string) (v : jsval) (o : object) : object :=
  match o with
  | [] => [(k, v)]
  | (k', v') :: o' =>
      if String.eqb k' k then (k', v) :: o' else (k', v') :: set_prop k v o'
  end.

(** The three property names the class reads from a message.  None of them
    is an array index, ["length"], or a property of [Object.prototype],
    [Array.prototype] or of a primitive's wrapper, so on arrays and on
    primitives they are always missing. *)
Inductive field : Type := F_method | F_id | F_item.

Definition key (f : field) : string :=
  match f with
  | F_method => "method"
  | F_id => "id"
  | F_item => "item"
  end.

(** ["k" in v]: a [TypeError] when [v] is not an object. *)
Definition js_in (f : field) (v : jsval) : completion bool :=
  match v with
  | JObj o => Normal (has_own (key f) o)
  | JArr _ => Normal false
  | JUndefined | JNull | JBool _ | JNum _ | JStr _ => Throw TypeError
  end.

(** [v.k]: a [TypeError] on [undefined] and [null]. *)
Definition js_get (f : field) (v : jsval) : completion jsval :=
  match v with
  | JObj o => Normal (prop (key f) o)
  | JArr _ | JBool _ | JNum _ | JStr _ => Normal JUndefined
  | JUndefined | JNull => Throw TypeError
  end.

(** [v === s] for a string literal [s]. *)
Definition strict_eq_str (v : jsval) (s : string) : bool :=
  match v with
  | JStr t => String.eqb t s
  | _ => false
  end.

(** [v !== undefined]. *)
Definition not_undefined (v : jsval) : bool :=
  match v with
  | JUndefined => false
  | _ => true
  end.

Definition typeof (v : jsval) : string :=
  match v with
  | JUndefined => "undefined"
  | JNull | JArr _ | JObj _ => "object"
  | JBool _ => "boolean"
  | JNum _ => "number"
  | JStr _ => "string"
  end.

(** [ev.data], identified by the outcome of the host's [JSON.parse]. *)
Inductive payload : Type :=
| Malformed
| Json (v : jsval).

Definition JSON_parse (data : payload) : completion jsval :=
  match data with
  | Malformed => Throw SyntaxError
  | Json v => Normal v
  end.

(** The text [JSON.stringify(v)], identified by the value it serialises. *)
Inductive text : Type := JSON_stringify (v : jsval).

(** [type MethodString = "CREATE" | "UPDATE" | "DELETE"] *)
Inductive MethodString : Type := CREATE | UPDATE | DELETE.

Definition method_string (m : MethodString) : string :=
  match m with
  | CREATE => "CREATE"
  | UPDATE => "UPDATE"
  | DELETE => "DELETE"
  end.

Definition createMethodString : string := method_string CREATE.
Definition updateMethodString : string := method_string UPDATE.
Definition deleteMethodString : string := method_string DELETE.

(** ** Methods as state transformers with a trace

    A method runs on the instance [S], may throw, and emits the calls it
    makes to the outside (handlers, [ws.send]) as a list of events [E]. *)
Section Eff.
Context {S E : Type}.

Definition M (A : Type) : Type := S -> completion A * S * list E.

Definition ret {A} (a : A) : M A := fun s => (Normal a, s, []).

Definition bind {A B} (m : M A) (f : A -> M B) : M B :=
  fun s =>
    match m s with
    | (Normal a, s1, t1) =>
        match f a s1 with
        | (c, s2, t2) => (c, s2, t1 ++ t2)
        end
    | (Throw e, s1, t1) => (Throw e, s1, t1)
    end.

Definition get : M S := fun s => (Normal s, s, []).
Definition modify (f : S -> S) : M unit := fun s => (Normal tt, f s, []).
Definition emit (e : E) : M unit := fun s => (Normal tt, s, [e]).
Definition throw {A} (e : js_error) : M A := fun s => (Throw e, s, []).

Definition lift {A} (c : completion A) : M A :=
  match c with
  | Normal a => ret a
  | Throw e => throw e
  end.

(** [l.forEach(f)] *)
Fixpoint forEach {A} (l : list A) (f : A -> M unit) : M unit :=
  match l with
  | [] => ret tt
  | x :: l' => bind (f x) (fun _ => forEach l' f)
  end.
End Eff.

Arguments M : clear implicits.

End JS.

Import JS.

Declare Scope eff_scope.
Delimit Scope eff_scope with eff.
Notation "x <- m ;; k" := (bind m (fun x => k))
  (at level 61, m at next level, right associativity) : eff_scope.
Notation "m ;; k" := (bind m (fun _ => k))
  (at level 61, right associativity) : eff_scope.
Local Open Scope eff_scope.

(** A consumer-supplied closure, by name. *)
Definition handler : Type := nat.

(* ===================================================================== *)
(** * [Simple]: src/index.ts *)
(* ===================================================================== *)

Module Simple.

(** [function isUpdateMessage(updMess)] *)
Definition isUpdateMessage (updMess : jsval) : completion bool :=
  cand (js_in F_method updMess)
 (cand (cbind (js_get F_method updMess) (fun m =>
          Normal (strict_eq_str m createMethodString
                  || strict_eq_str m updateMethodString
                  || strict_eq_str m deleteMethodString)))
 (cand (js_in F_id updMess)
 (cand (cbind (js_get F_id updMess) (fun i =>
          Normal (String.eqb (typeof i) "string")))
       (js_in F_item updMess)))).

(** A callback field: the no-op arrow function the class installs, or
    whatever the consumer assigned. *)
Inductive callback : Type :=
| noop
| consumer (h : handler).

Record LiveGollection : Type := mkLiveGollection {
  url : string;
  oncreate : callback;
  onupdate : callback;
  ondelete : callback;
  onopen : callback;
  onclose : callback
}.

Inductive event : Type :=
| Call_oncreate (f : callback) (item : jsval)
| Call_onupdate (f : callback) (item : jsval)
| Call_ondelete (f : callback) (item : jsval)
| Call_onopen (f : callback)
| Call_onclose (f : callback)
| Ws_send (frame : text).

Definition new_LiveGollection (u : string) : LiveGollection :=
  mkLiveGollection u noop noop noop noop noop.

(** [this.ws.onopen] *)
Definition ws_onopen : M LiveGollection event unit :=
  s <- get ;; emit (Call_onopen (onopen s)).

(** [this.ws.onmessage] *)
Definition ws_onmessage (ev_data : payload) : M LiveGollection event unit :=
  updMess <- lift (JSON_parse ev_data) ;;
  ok <- lift (isUpdateMessage updMess) ;;
  if ok then
    m <- lift (js_get F_method updMess) ;;
    if strict_eq_str m createMethodString then
      it <- lift (js_get F_item updMess) ;;
      s <- get ;; emit (Call_oncreate (oncreate s) it)
    else if strict_eq_str m updateMethodString then
      it <- lift (js_get F_item updMess) ;;
      s <- get ;; emit (Call_onupdate (onupdate s) it)
    else if strict_eq_str m deleteMethodString then
      it <- lift (js_get F_item updMess) ;;
      s <- get ;; emit (Call_ondelete (ondelete s) it)
    else ret tt
  else ret tt.

(** [this.ws.onclose] *)
Definition ws_onclose : M LiveGollection event unit :=
  s <- get ;; emit (Call_onclose (onclose s)).

(** [private craftUpdateMessage(method, item): string] *)
Definition craftUpdateMessage (method : MethodString) (item : object) : text :=
  let updMess := [("method", JStr (method_string method)); ("item", JObj item)] in
  let updMess :=
    if not_undefined (prop "id" item)
    then set_prop "id" (prop "id" item) updMess
    else updMess in
  JSON_stringify (JObj updMess).

(** [create], [update], [delete] hand the text to [ws.send] at once.  What
    the websocket does with a frame sent before it is open is its own
    business and is not modelled. *)
Definition create (item : object) : M LiveGollection event unit :=
  emit (Ws_send (craftUpdateMessage CREATE item)).

Definition update (item : object) : M LiveGollection event unit :=
  emit (Ws_send (craftUpdateMessage UPDATE item)).

Definition delete (item : object) : M LiveGollection event unit :=
  emit (Ws_send (craftUpdateMessage DELETE item)).

End Simple.

(* ===================================================================== *)
(** * [Strict]: the caching version of the class *)
(* ===================================================================== *)

Module Strict.

(** [function isUpdateMessage(updMess)]: the identifier type is a type
    parameter here, and only the presence of ["id"] is tested. *)
Definition isUpdateMessage (updMess : jsval) : completion bool :=
  cand (js_in F_method updMess)
 (cand (cbind (js_get F_method updMess) (fun m =>
          Normal (strict_eq_str m createMethodString
                  || strict_eq_str m updateMethodString
                  || strict_eq_str m deleteMethodString)))
 (cand (js_in F_id updMess)
       (js_in F_item updMess))).

(** The fields of an instance.  The five [_on...] fields are declared with
    [!] and hold [undefined] ([None]) until a setter assigns them. *)
Record LiveGollection : Type := mkLiveGollection {
  url : string;
  hasConnBeenOpened : bool;
  hasConnBeenClosed : bool;
  cachedReceivedUpdates : list jsval;
  cachedUpdatesToSend : list jsval;
  isOnCreateSet : bool;
  isOnUpdateSet : bool;
  isOnDeleteSet : bool;
  isOnOpenSet : bool;
  isOnCloseSet : bool;
  _oncreate : option handler;
  _onupdate : option handler;
  _ondelete : option handler;
  _onopen : option handler;
  _onclose : option handler
}.

Definition new_LiveGollection (u : string) : LiveGollection :=
  mkLiveGollection u false false [] [] false false false false false
                   None None None None None.

(** Field assignments. *)
Definition with_hasConnBeenOpened (b : bool) (s : LiveGollection) :=
  let (u, _, cl, rx, tx, fc, fu, fd, fo, fx, hc, hu, hd, ho, hx) := s in
  mkLiveGollection u b cl rx tx fc fu fd fo fx hc hu hd ho hx.
Definition with_hasConnBeenClosed (b : bool) (s : LiveGollection) :=
  let (u, op, _, rx, tx, fc, fu, fd, fo, fx, hc, hu, hd, ho, hx) := s in
  mkLiveGollection u op b rx tx fc fu fd fo fx hc hu hd ho hx.
Definition with_cachedReceivedUpdates (l : list jsval) (s : LiveGollection) :=
  let (u, op, cl, _, tx, fc, fu, fd, fo, fx, hc, hu, hd, ho, hx) := s in
  mkLiveGollection u op cl l tx fc fu fd fo fx hc hu hd ho hx.
Definition with_cachedUpdatesToSend (l : list jsval) (s : LiveGollection) :=
  let (u, op, cl, rx, _, fc, fu, fd, fo, fx, hc, hu, hd, ho, hx) := s in
  mkLiveGollection u op cl rx l fc fu fd fo fx hc hu hd ho hx.
Definition with_isOnCreateSet (b : bool) (s : LiveGollection) :=
  let (u, op, cl, rx, tx, _, fu, fd, fo, fx, hc, hu, hd, ho, hx) := s in
  mkLiveGollection u op cl rx tx b fu fd fo fx hc hu hd ho hx.
Definition with_isOnUpdateSet (b : bool) (s : LiveGollection) :=
  let (u, op, cl, rx, tx, fc, _, fd, fo, fx, hc, hu, hd, ho, hx) := s in
  mkLiveGollection u op cl rx tx fc b fd fo fx hc hu hd ho hx.
Definition with_isOnDeleteSet (b : bool) (s : LiveGollection) :=
  let (u, op, cl, rx, tx, fc, fu, _, fo, fx, hc, hu, hd, ho, hx) := s in
  mkLiveGollection u op cl rx tx fc fu b fo fx hc hu hd ho hx.
Definition with_isOnOpenSet (b : bool) (s : LiveGollection) :=
  let (u, op, cl, rx, tx, fc, fu, fd, _, fx, hc, hu, hd, ho, hx) := s in
  mkLiveGollection u op cl rx tx fc fu fd b fx hc hu hd ho hx.
Definition with_isOnCloseSet (b : bool) (s : LiveGollection) :=
  let (u, op, cl, rx, tx, fc, fu, fd, fo, _, hc, hu, hd, ho, hx) := s in
  mkLiveGollection u op cl rx tx fc fu fd fo b hc hu hd ho hx.
Definition with__oncreate (h : option handler) (s : LiveGollection) :=
  let (u, op, cl, rx, tx, fc, fu, fd, fo, fx, _, hu, hd, ho, hx) := s in
  mkLiveGollection u op cl rx tx fc fu fd fo fx h hu hd ho hx.
Definition with__onupdate (h : option handler) (s : LiveGollection) :=
  let (u, op, cl, rx, tx, fc, fu, fd, fo, fx, hc, _, hd, ho, hx) := s in
  mkLiveGollection u op cl rx tx fc fu fd fo fx hc h hd ho hx.
Definition with__ondelete (h : option handler) (s : LiveGollection) :=
  let (u, op, cl, rx, tx, fc, fu, fd, fo, fx, hc, hu, _, ho, hx) := s in
  mkLiveGollection u op cl rx tx fc fu fd fo fx hc hu h ho hx.
Definition with__onopen (h : option handler) (s : LiveGollection) :=
  let (u, op, cl, rx, tx, fc, fu, fd, fo, fx, hc, hu, hd, _, hx) := s in
  mkLiveGollection u op cl rx tx fc fu fd fo fx hc hu hd h hx.
Definition with__onclose (h : option handler) (s : LiveGollection) :=
  let (u, op, cl, rx, tx, fc, fu, fd, fo, fx, hc, hu, hd, ho, _) := s in
  mkLiveGollection u op cl rx tx fc fu fd fo fx hc hu hd ho h.

(** What the instance does to the outside. *)
Inductive event : Type :=
| Call_oncreate (h : handler) (item : jsval)
| Call_onupdate (h : handler) (item : jsval)
| Call_ondelete (h : handler) (item : jsval)
| Call_onopen (h : handler)
| Call_onclose (h : handler)
| Ws_send (frame : text).

Definition Eff : Type -> Type := M LiveGollection event.

(** Calling the function held by a handler field: a [TypeError] when the
    field is still [undefined]. *)
Definition call (f : option handler) (e : handler -> event) : Eff unit :=
  match f with
  | Some h => emit (e h)
  | None => throw TypeError
  end.

(** [this.ws.onopen] *)
Definition ws_onopen : Eff unit :=
  modify (with_hasConnBeenOpened true) ;;
  s <- get ;;
  (if isOnOpenSet s then call (_onopen s) Call_onopen else ret tt) ;;
  s <- get ;;
  forEach (cachedUpdatesToSend s)
          (fun updMess => emit (Ws_send (JSON_stringify updMess))) ;;
  modify (with_cachedUpdatesToSend []).

(** [private processUpdate(updMess)] *)
Definition processUpdate (updMess : jsval) : Eff unit :=
  m <- lift (js_get F_method updMess) ;;
  if strict_eq_str m createMethodString then
    s <- get ;;
    it <- lift (js_get F_item updMess) ;;
    call (_oncreate s) (fun h => Call_oncreate h it)
  else if strict_eq_str m updateMethodString then
    s <- get ;;
    it <- lift (js_get F_item updMess) ;;
    call (_onupdate s) (fun h => Call_onupdate h it)
  else if strict_eq_str m deleteMethodString then
    s <- get ;;
    it <- lift (js_get F_item updMess) ;;
    call (_ondelete s) (fun h => Call_ondelete h it)
  else ret tt.

(** [this.ws.onmessage] *)
Definition ws_onmessage (ev_data : payload) : Eff unit :=
  updMess <- lift (JSON_parse ev_data) ;;
  ok <- lift (isUpdateMessage updMess) ;;
  if ok then
    s <- get ;;
    if negb (isOnCreateSet s) || negb (isOnUpdateSet s) || negb (isOnDeleteSet s)
    then modify (fun s => with_cachedReceivedUpdates
                            (cachedReceivedUpdates s ++ [updMess]) s)
    else processUpdate updMess
  else ret tt.

(** [this.ws.onclose] *)
Definition ws_onclose : Eff unit :=
  modify (with_hasConnBeenClosed true) ;;
  s <- get ;;
  if isOnCloseSet s then call (_onclose s) Call_onclose else ret tt.

(** The object built by [craftAndSendUpdateMessage] before it is queued or
    sent. *)
Definition craft (item : object) (method : MethodString) : jsval :=
  let updMess := [("method", JStr (method_string method)); ("item", JObj item)] in
  JObj (if not_undefined (prop "id" item)
        then set_prop "id" (prop "id" item) updMess
        else updMess).

(** [private craftAndSendUpdateMessage(item, method)] *)
Definition craftAndSendUpdateMessage (item : object) (method : MethodString)
  : Eff unit :=
  let updMess := craft item method in
  s <- get ;;
  if negb (hasConnBeenOpened s)
  then modify (fun s => with_cachedUpdatesToSend
                          (cachedUpdatesToSend s ++ [updMess]) s)
  else emit (Ws_send (JSON_stringify updMess)).

Definition create (item : object) : Eff unit :=
  craftAndSendUpdateMessage item CREATE.
Definition update (item : object) : Eff unit :=
  craftAndSendUpdateMessage item UPDATE.
Definition delete (item : object) : Eff unit :=
  craftAndSendUpdateMessage item DELETE.

(** [set oncreate(handler)] *)
Definition set_oncreate (h : handler) : Eff unit :=
  modify (with__oncreate (Some h)) ;;
  s <- get ;;
  (if negb (isOnCreateSet s) && isOnUpdateSet s && isOnDeleteSet s then
     forEach (cachedReceivedUpdates s) processUpdate ;;
     modify (with_cachedReceivedUpdates [])
   else ret tt) ;;
  modify (with_isOnCreateSet true).

(** [set onupdate(handler)] *)
Definition set_onupdate (h : handler) : Eff unit :=
  modify (with__onupdate (Some h)) ;;
  s <- get ;;
  (if isOnCreateSet s && negb (isOnUpdateSet s) && isOnDeleteSet s then
     forEach (cachedReceivedUpdates s) processUpdate ;;
     modify (with_cachedReceivedUpdates [])
   else ret tt) ;;
  modify (with_isOnUpdateSet true).

(** [set ondelete(handler)] *)
Definition set_ondelete (h : handler) : Eff unit :=
  modify (with__ondelete (Some h)) ;;
  s <- get ;;
  (if isOnCreateSet s && isOnUpdateSet s && negb (isOnDeleteSet s) then
     forEach (cachedReceivedUpdates s) processUpdate ;;
     modify (with_cachedReceivedUpdates [])
   else ret tt) ;;
  modify (with_isOnDeleteSet true).

(** [set onopen(handler)] *)
Definition set_onopen (h : handler) : Eff unit :=
  modify (with__onopen (Some h)) ;;
  modify (with_isOnOpenSet true) ;;
  s <- get ;;
  if hasConnBeenOpened s then emit (Call_onopen h) else ret tt.

(** [set onclose(handler)] *)
Definition set_onclose (h : handler) : Eff unit :=
  modify (with__onclose (Some h)) ;;
  modify (with_isOnCloseSet true) ;;
  s <- get ;;
  if hasConnBeenClosed s then emit (Call_onclose h) else ret tt.

(** ** Runs

    Everything that can happen to an instance: the three websocket events
    and the consumer's calls. *)
Inductive op : Type :=
| WsOpen
| WsMessage (ev_data : payload)
| WsClose
| Create (item : object)
| Update (item : object)
| Delete (item : object)
| SetOnCreate (h : handler)
| SetOnUpdate (h : handler)
| SetOnDelete (h : handler)
| SetOnOpen (h : handler)
| SetOnClose (h : handler).

Definition step (o : op) : Eff unit :=
  match o with
  | WsOpen => ws_onopen
  | WsMessage d => ws_onmessage d
  | WsClose => ws_onclose
  | Create i => create i
  | Update i => update i
  | Delete i => delete i
  | SetOnCreate h => set_oncreate h
  | SetOnUpdate h => set_onupdate h
  | SetOnDelete h => set_ondelete h
  | SetOnOpen h => set_onopen h
  | SetOnClose h => set_onclose h
  end.

Definition result (o : op) (s : LiveGollection) : completion unit :=
  fst (fst (step o s)).
Definition after (o : op) (s : LiveGollection) : LiveGollection :=
  snd (fst (step o s)).
Definition emitted (o : op) (s : LiveGollection) : list event :=
  snd (step o s).

(** The instance after a run. *)
Fixpoint exec (ops : list op) (s : LiveGollection) : LiveGollection :=
  match ops with
  | [] => s
  | o :: ops' => exec ops' (after o s)
  end.

(** Everything the instance did to the outside during a run. *)
Fixpoint trace (ops : list op) (s : LiveGollection) : list event :=
  match ops with
  | [] => []
  | o :: ops' => emitted o s ++ trace ops' (after o s)
  end.

(** The exceptions that escaped during a run. *)
Fixpoint thrown (ops : list op) (s : LiveGollection) : list js_error :=
  match ops with
  | [] => []
  | o :: ops' =>
      match result o s with
      | Normal _ => thrown ops' (after o s)
      | Throw e => e :: thrown ops' (after o s)
      end
  end.

(** ** Vocabulary of the properties *)

Definition init : LiveGollection := new_LiveGollection "ws://localhost:8080/livegollection".

(** All of [oncreate], [onupdate], [ondelete] have been set. *)
Definition handlers_ready (s : LiveGollection) : bool :=
  isOnCreateSet s && isOnUpdateSet s && isOnDeleteSet s.

(** The step [o] sets the one handler of the three that is still missing:
    the condition under which its setter replays the cache. *)
Definition registers_last_missing (o : op) (s : LiveGollection) : bool :=
  match o with
  | SetOnCreate _ => negb (isOnCreateSet s) && isOnUpdateSet s && isOnDeleteSet s
  | SetOnUpdate _ => isOnCreateSet s && negb (isOnUpdateSet s) && isOnDeleteSet s
  | SetOnDelete _ => isOnCreateSet s && isOnUpdateSet s && negb (isOnDeleteSet s)
  | _ => false
  end.


Definition is_SetOnCreate (o : op) : bool :=
  match o with SetOnCreate _ => true | _ => false end.
Definition is_SetOnUpdate (o : op) : bool :=
  match o with SetOnUpdate _ => true | _ => false end.
Definition is_SetOnDelete (o : op) : bool :=
  match o with SetOnDelete _ => true | _ => false end.
Definition is_SetOnOpen (o : op) : bool :=
  match o with SetOnOpen _ => true | _ => false end.
Definition is_SetOnClose (o : op) : bool :=
  match o with SetOnClose _ => true | _ => false end.
Definition is_WsOpen (o : op) : bool :=
  match o with WsOpen => true | _ => false end.
Definition is_WsClose (o : op) : bool :=
  match o with WsClose => true | _ => false end.
Definition is_mutation_call (o : op) : bool :=
  match o with Create _ | Update _ | Delete _ => true | _ => false end.

(** A call of one of [oncreate], [onupdate], [ondelete]. *)
Definition is_mutation_callback (e : event) : bool :=
  match e with
  | Call_oncreate _ _ | Call_onupdate _ _ | Call_ondelete _ _ => true
  | _ => false
  end.

Definition is_send (e : event) : bool :=
  match e with Ws_send _ => true | _ => false end.
Definition is_open_callback (e : event) : bool :=
  match e with Call_onopen _ => true | _ => false end.
Definition is_close_callback (e : event) : bool :=
  match e with Call_onclose _ => true | _ => false end.

(** The payload passes [JSON.parse] and [isUpdateMessage]. *)
Definition accepted (d : payload) : bool :=
  match cbind (JSON_parse d) isUpdateMessage with
  | Normal true => true
  | _ => false
  end.

(** The messages of a run that were accepted, in arrival order. *)
Fixpoint valid_messages (ops : list op) : list jsval :=
  match ops with
  | [] => []
  | WsMessage (Json v) :: ops' =>
      if accepted (Json v) then v :: valid_messages ops' else valid_messages ops'
  | _ :: ops' => valid_messages ops'
  end.

(** The one callback an accepted message is routed to, given the three
    handlers. *)
Definition dispatch (hc hu hd : handler) (updMess : jsval) : list event :=
  match updMess with
  | JObj o =>
      match lookup "method" o with
      | Some (JStr m) =>
          if String.eqb m "CREATE" then [Call_oncreate hc (prop "item" o)]
          else if String.eqb m "UPDATE" then [Call_onupdate hu (prop "item" o)]
          else if String.eqb m "DELETE" then [Call_ondelete hd (prop "item" o)]
          else []
      | _ => []
      end
  | _ => []
  end.

(** The messages crafted by the [create]/[update]/[delete] calls of a run,
    in call order. *)
Fixpoint outbound (ops : list op) : list jsval :=
  match ops with
  | [] => []
  | Create i :: ops' => craft i CREATE :: outbound ops'
  | Update i :: ops' => craft i UPDATE :: outbound ops'
  | Delete i :: ops' => craft i DELETE :: outbound ops'
  | _ :: ops' => outbound ops'
  end.

Definition send_of (updMess : jsval) : event := Ws_send (JSON_stringify updMess).

(** The handler most recently given to [onopen] (resp. [onclose]). *)
Fixpoint last_onopen (ops : list op) (acc : option handler) : option handler :=
  match ops with
  | [] => acc
  | SetOnOpen h :: ops' => last_onopen ops' (Some h)
  | _ :: ops' => last_onopen ops' acc
  end.

Fixpoint last_onclose (ops : list op) (acc : option handler) : option handler :=
  match ops with
  | [] => acc
  | SetOnClose h :: ops' => last_onclose ops' (Some h)
  | _ :: ops' => last_onclose ops' acc
  end.

Definition callback_events (mk : handler -> event) (f : option handler) : list event :=
  match f with
  | Some h => [mk h]
  | None => []
  end.

(** The connection lifecycle, read off the two booleans. *)
Inductive conn_state : Type := not_yet_open | open | closed.

Definition conn (s : LiveGollection) : conn_state :=
  if hasConnBeenClosed s then closed
  else if hasConnBeenOpened s then open
  else not_yet_open.

Definition rank (c : conn_state) : nat :=
  match c with
  | not_yet_open => 0
  | open => 1
  | closed => 2
  end.

Definition conn_eqb (a b : conn_state) : bool := Nat.eqb (rank a) (rank b).

(** How many steps of a run move the connection from [a] to [b]. *)
Fixpoint transitions (a b : conn_state) (ops : list op) (s : LiveGollection) : nat :=
  match ops with
  | [] => 0
  | o :: ops' =>
      (if conn_eqb (conn s) a && conn_eqb (conn (after o s)) b then 1 else 0)
      + transitions a b ops' (after o s)
  end.

(** How many steps of a run turn the boolean [f] from false to true, and
    how many turn it back. *)
Fixpoint flips (f : LiveGollection -> bool) (ops : list op) (s : LiveGollection) : nat :=
  match ops with
  | [] => 0
  | o :: ops' =>
      (if negb (f s) && f (after o s) then 1 else 0) + flips f ops' (after o s)
  end.

Fixpoint resets (f : LiveGollection -> bool) (ops : list op) (s : LiveGollection) : nat :=
  match ops with
  | [] => 0
  | o :: ops' =>
      (if f s && negb (f (after o s)) then 1 else 0) + resets f ops' (after o s)
  end.

Definition registration_flags : list (LiveGollection -> bool) :=
  [isOnCreateSet; isOnUpdateSet; isOnDeleteSet; isOnOpenSet; isOnCloseSet].

(** How many steps of a run replay the cache of received updates. *)
Fixpoint drains (ops : list op) (s : LiveGollection) : nat :=
  match ops with
  | [] => 0
  | o :: ops' =>
      (if registers_last_missing o s then 1 else 0) + drains ops' (after o s)
  end.

(** ** Sample data *)

Definition sample_update : jsval :=
  JObj [("method", JStr "UPDATE"); ("id", JStr "42");
        ("item", JObj [("id", JStr "42"); ("v", JNum 1)])].

Definition sample_create : jsval :=
  JObj [("method", JStr "CREATE"); ("id", JStr "7");
        ("item", JObj [("id", JStr "7"); ("v", JNum 0)])].

(** Two updates arrive, then [oncreate] and [onupdate] are set. *)
Definition sample_run : list op :=
  [WsMessage (Json sample_update); WsMessage (Json sample_create);
   SetOnCreate 1; SetOnUpdate 2].


End Strict.

(** ** The validation predicate, in the words of the specification *)

Definition is_method_string (m : string) : bool :=
  String.eqb m "CREATE" || String.eqb m "UPDATE" || String.eqb m "DELETE".

(** A record with a [method] among the three strings, an [id] key whose
    value is a string, and an [item] field. *)
Definition spec_accepts (o : object) : bool :=
  match lookup "method" o, lookup "id" o, lookup "item" o with
  | Some (JStr m), Some (JStr _), Some _ => is_method_string m
  | _, _, _ => false
  end.

(** The same with any value under the [id] key. *)
Definition presence_accepts (o : object) : bool :=
  match lookup "method" o, lookup "id" o, lookup "item" o with
  | Some (JStr m), Some _, Some _ => is_method_string m
  | _, _, _ => false
  end.

(** The properties of a message object, and the object behind a text. *)
Definition own_props (v : jsval) : object :=
  match v with
  | JObj o => o
  | _ => []
  end.

Definition stringified (t : text) : jsval :=
  match t with JSON_stringify v => v end.

(** A CREATE message whose identifier is a number. *)
Definition numeric_id_message : object :=
  [("method", JStr "CREATE"); ("id", JNum 42); ("item", JObj [("v", JNum 1)])].

(** A record with an unknown method, and an item whose identifier is
    [null]. *)
Definition patch_message : object :=
  [("method", JStr "PATCH"); ("id", JStr "42"); ("item", JObj [])].


(** [JSON.parse] returned an object (arrays included), on which [in] is
    defined. *)
Definition is_object (v : jsval) : bool :=
  match v with
  | JObj _ | JArr _ => true
  | _ => false
  end.

(** ** Invariant of the reachable instances *)

Module Reach.
Import Strict.

Definition is_some {A} (x : option A) : bool :=
  match x with Some _ => true | None => false end.

Record Inv (s : LiveGollection) : Prop := mkInv {
  inv_oncreate : isOnCreateSet s = true -> is_some (_oncreate s) = true;
  inv_onupdate : isOnUpdateSet s = true -> is_some (_onupdate s) = true;
  inv_ondelete : isOnDeleteSet s = true -> is_some (_ondelete s) = true;
  inv_onopen : isOnOpenSet s = is_some (_onopen s);
  inv_onclose : isOnCloseSet s = is_some (_onclose s);
  inv_cache : Forall (fun v => accepted (Json v) = true) (cachedReceivedUpdates s);
  inv_drained : handlers_ready s = true -> cachedReceivedUpdates s = [];
  inv_flushed : hasConnBeenOpened s = true -> cachedUpdatesToSend s = []
}.

(** The callbacks a replay of [l] makes, with the handlers held by [s]. *)
Definition replay (s : LiveGollection) (l : list jsval) : list event :=
  match _oncreate s, _onupdate s, _ondelete s with
  | Some hc, Some hu, Some hd => flat_map (dispatch hc hu hd) l
  | _, _, _ => []
  end.

Definition enqueue (updMess : jsval) (s : LiveGollection) : LiveGollection :=
  with_cachedUpdatesToSend (cachedUpdatesToSend s ++ [updMess]) s.

Definition send_or_enqueue (updMess : jsval) (s : LiveGollection)
  : completion unit * LiveGollection * list event :=
  if hasConnBeenOpened s
  then (Normal tt, s, [send_of updMess])
  else (Normal tt, enqueue updMess s, []).

(** Closed form of [step] on the instances that satisfy [Inv]
    (lemma [step_summary]). *)
Definition summary (o : op) (s : LiveGollection)
  : completion unit * LiveGollection * list event :=
  match o with
  | WsOpen =>
      (Normal tt,
       with_cachedUpdatesToSend [] (with_hasConnBeenOpened true s),
       callback_events Call_onopen (_onopen s) ++ map send_of (cachedUpdatesToSend s))
  | WsMessage Malformed => (Throw SyntaxError, s, [])
  | WsMessage (Json v) =>
      match Strict.isUpdateMessage v with
      | Throw e => (Throw e, s, [])
      | Normal false => (Normal tt, s, [])
      | Normal true =>
          if handlers_ready s
          then (Normal tt, s, replay s [v])
          else (Normal tt,
                with_cachedReceivedUpdates (cachedReceivedUpdates s ++ [v]) s, [])
      end
  | WsClose =>
      (Normal tt, with_hasConnBeenClosed true s,
       callback_events Call_onclose (_onclose s))
  | Create i => send_or_enqueue (craft i CREATE) s
  | Update i => send_or_enqueue (craft i UPDATE) s
  | Delete i => send_or_enqueue (craft i DELETE) s
  | SetOnCreate h =>
      let s' := with__oncreate (Some h) s in
      if registers_last_missing o s
      then (Normal tt, with_isOnCreateSet true (with_cachedReceivedUpdates [] s'),
            replay s' (cachedReceivedUpdates s))
      else (Normal tt, with_isOnCreateSet true s', [])
  | SetOnUpdate h =>
      let s' := with__onupdate (Some h) s in
      if registers_last_missing o s
      then (Normal tt, with_isOnUpdateSet true (with_cachedReceivedUpdates [] s'),
            replay s' (cachedReceivedUpdates s))
      else (Normal tt, with_isOnUpdateSet true s', [])
  | SetOnDelete h =>
      let s' := with__ondelete (Some h) s in
      if registers_last_missing o s
      then (Normal tt, with_isOnDeleteSet true (with_cachedReceivedUpdates [] s'),
            replay s' (cachedReceivedUpdates s))
      else (Normal tt, with_isOnDeleteSet true s', [])
  | SetOnOpen h =>
      (Normal tt, with_isOnOpenSet true (with__onopen (Some h) s),
       if hasConnBeenOpened s then [Call_onopen h] else [])
  | SetOnClose h =>
      (Normal tt, with_isOnCloseSet true (with__onclose (Some h) s),
       if hasConnBeenClosed s then [Call_onclose h] else [])
  end.

End Reach.

(** ** What a run shows to the outside *)

Module Observe.
Import Strict.

(** The objects handed to [ws.send], in the order of the calls. *)
Definition sent_by (e : event) : list jsval :=
  match e with
  | Ws_send (JSON_stringify m) => [m]
  | _ => []
  end.

Definition sent (t : list event) : list jsval := flat_map sent_by t.

(** A call of [oncreate], [onupdate] or [ondelete], without the handler:
    which of the three, and the argument. *)
Definition routed (e : event) : list (MethodString * jsval) :=
  match e with
  | Call_oncreate _ it => [(CREATE, it)]
  | Call_onupdate _ it => [(UPDATE, it)]
  | Call_ondelete _ it => [(DELETE, it)]
  | _ => []
  end.

Definition deliveries (t : list event) : list (MethodString * jsval) :=
  flat_map routed t.

(** The [switch] of [processUpdate]: the callback a message goes to, and
    its argument [updMess.item]. *)
Definition routing (updMess : jsval) : list (MethodString * jsval) :=
  match updMess with
  | JObj o =>
      match lookup "method" o with
      | Some (JStr m) =>
          if String.eqb m "CREATE" then [(CREATE, prop "item" o)]
          else if String.eqb m "UPDATE" then [(UPDATE, prop "item" o)]
          else if String.eqb m "DELETE" then [(DELETE, prop "item" o)]
          else []
      | _ => []
      end
  | _ => []
  end.

(** The call of the callback of method [m]. *)
Definition callback_for (m : MethodString) (hc hu hd : handler) (it : jsval)
  : event :=
  match m with
  | CREATE => Call_oncreate hc it
  | UPDATE => Call_onupdate hu it
  | DELETE => Call_ondelete hd it
  end.

(** The handler most recently given to each of the three setters. *)
Fixpoint last_oncreate (ops : list op) (acc : option handler) : option handler :=
  match ops with
  | [] => acc
  | SetOnCreate h :: ops' => last_oncreate ops' (Some h)
  | _ :: ops' => last_oncreate ops' acc
  end.

Fixpoint last_onupdate (ops : list op) (acc : option handler) : option handler :=
  match ops with
  | [] => acc
  | SetOnUpdate h :: ops' => last_onupdate ops' (Some h)
  | _ :: ops' => last_onupdate ops' acc
  end.

Fixpoint last_ondelete (ops : list op) (acc : option handler) : option handler :=
  match ops with
  | [] => acc
  | SetOnDelete h :: ops' => last_ondelete ops' (Some h)
  | _ :: ops' => last_ondelete ops' acc
  end.



(** The step reads or writes [hasConnBeenClosed]. *)
Definition touches_close (o : op) : bool :=
  match o with
  | WsClose | SetOnClose _ => true
  | _ => false
  end.

End Observe.

(** ** Runs of the version of [src/index.ts]

    The callbacks are public fields: the consumer sets one by plain
    assignment. *)

Module SimpleRun.
Import Simple.

Definition with_oncreate (f : callback) (s : LiveGollection) :=
  let (u, _, fu, fd, fo, fx) := s in mkLiveGollection u f fu fd fo fx.
Definition with_onupdate (f : callback) (s : LiveGollection) :=
  let (u, fc, _, fd, fo, fx) := s in mkLiveGollection u fc f fd fo fx.
Definition with_ondelete (f : callback) (s : LiveGollection) :=
  let (u, fc, fu, _, fo, fx) := s in mkLiveGollection u fc fu f fo fx.
Definition with_onopen (f : callback) (s : LiveGollection) :=
  let (u, fc, fu, fd, _, fx) := s in mkLiveGollection u fc fu fd f fx.
Definition with_onclose (f : callback) (s : LiveGollection) :=
  let (u, fc, fu, fd, fo, _) := s in mkLiveGollection u fc fu fd fo f.

Inductive op : Type :=
| WsOpen
| WsMessage (ev_data : payload)
| WsClose
| Create (item : object)
| Update (item : object)
| Delete (item : object)
| AssignOnCreate (h : handler)
| AssignOnUpdate (h : handler)
| AssignOnDelete (h : handler)
| AssignOnOpen (h : handler)
| AssignOnClose (h : handler).

Definition step (o : op) : M LiveGollection event unit :=
  match o with
  | WsOpen => ws_onopen
  | WsMessage d => ws_onmessage d
  | WsClose => ws_onclose
  | Create i => create i
  | Update i => update i
  | Delete i => delete i
  | AssignOnCreate h => modify (with_oncreate (consumer h))
  | AssignOnUpdate h => modify (with_onupdate (consumer h))
  | AssignOnDelete h => modify (with_ondelete (consumer h))
  | AssignOnOpen h => modify (with_onopen (consumer h))
  | AssignOnClose h => modify (with_onclose (consumer h))
  end.

Definition after (o : op) (s : LiveGollection) : LiveGollection :=
  snd (fst (step o s)).
Definition emitted (o : op) (s : LiveGollection) : list event :=
  snd (step o s).

Fixpoint exec (ops : list op) (s : LiveGollection) : LiveGollection :=
  match ops with
  | [] => s
  | o :: ops' => exec ops' (after o s)
  end.

Fixpoint trace (ops : list op) (s : LiveGollection) : list event :=
  match ops with
  | [] => []
  | o :: ops' => emitted o s ++ trace ops' (after o s)
  end.

Definition is_assignment (o : op) : bool :=
  match o with
  | AssignOnCreate _ | AssignOnUpdate _ | AssignOnDelete _
  | AssignOnOpen _ | AssignOnClose _ => true
  | _ => false
  end.

(** The texts handed to [ws.send]. *)
Definition sent_by (e : event) : list text :=
  match e with
  | Ws_send t => [t]
  | _ => []
  end.

Definition sent (t : list event) : list text := flat_map sent_by t.

(** A call of one of the three mutation callbacks: the function called,
    which of the three, and the argument. *)
Definition routed (e : event) : list (callback * (MethodString * jsval)) :=
  match e with
  | Call_oncreate f it => [(f, (CREATE, it))]
  | Call_onupdate f it => [(f, (UPDATE, it))]
  | Call_ondelete f it => [(f, (DELETE, it))]
  | _ => []
  end.

Definition deliveries (t : list event) : list (MethodString * jsval) :=
  map snd (flat_map routed t).

(** The texts crafted by the calls of a run, in call order. *)
Fixpoint outbound (ops : list op) : list text :=
  match ops with
  | [] => []
  | Create i :: ops' => craftUpdateMessage CREATE i :: outbound ops'
  | Update i :: ops' => craftUpdateMessage UPDATE i :: outbound ops'
  | Delete i :: ops' => craftUpdateMessage DELETE i :: outbound ops'
  | _ :: ops' => outbound ops'
  end.

(** The messages of a run that [isUpdateMessage] accepts, in arrival
    order. *)
Fixpoint valid_messages (ops : list op) : list jsval :=
  match ops with
  | [] => []
  | WsMessage (Json v) :: ops' =>
      match isUpdateMessage v with
      | Normal true => v :: valid_messages ops'
      | _ => valid_messages ops'
      end
  | _ :: ops' => valid_messages ops'
  end.

(** The function a call event calls. *)
Definition callee (e : event) : list callback :=
  match e with
  | Call_oncreate f _ | Call_onupdate f _ | Call_ondelete f _ => [f]
  | Call_onopen f | Call_onclose f => [f]
  | Ws_send _ => []
  end.

Definition callees (t : list event) : list callback := flat_map callee t.

End SimpleRun.

(** ** The two versions side by side *)

Module Versions.


(** [typeof updMess.id == "string"] *)
Definition has_string_id (updMess : jsval) : bool :=
  String.eqb (typeof (prop "id" (own_props updMess))) "string".

End Versions.

(* ===================================================================== *)
(** * Properties *)
(* ===================================================================== *)

Import Strict Reach.

(** ** The operators *)

Lemma lookup_has_own k o :
  has_own k o = true <-> exists v, lookup k o = Some v.
Proof.
  unfold has_own. destruct (lookup k o) as [v|]; split; intros H.
  - now exists v.
  - reflexivity.
  - discriminate.
  - destruct H as [v H]. discriminate.
Qed.

Lemma strict_eq_str_true v s :
  strict_eq_str v s = true <-> v = JStr s.
Proof.
  destruct v; simpl; split; intros H; try discriminate; try congruence.
  - apply String.eqb_eq in H. now subst.
  - injection H as ->. apply String.eqb_refl.
Qed.

Lemma lookup_set_prop_same k v o :
  lookup k (set_prop k v o) = Some v.
Proof.
  induction o as [|[k' v'] o IH]; simpl.
  - now rewrite String.eqb_refl.
  - destruct (String.eqb k' k) eqn:E; simpl; rewrite E; auto.
Qed.

Lemma lookup_set_prop_other k k' v o :
  k' <> k -> lookup k' (set_prop k v o) = lookup k' o.
Proof.
  intros Hne. induction o as [|[k0 v0] o IH]; simpl.
  - destruct (String.eqb_spec k k'); congruence.
  - destruct (String.eqb_spec k0 k) as [->|Hk]; simpl.
    + destruct (String.eqb_spec k k'); congruence.
    + destruct (String.eqb_spec k0 k'); auto.
Qed.

(** ** The validator *)

Lemma strict_isUpdateMessage_obj o :
  Strict.isUpdateMessage (JObj o) = Normal (presence_accepts o).
Proof.
  unfold Strict.isUpdateMessage, presence_accepts, cand, cbind, js_in, js_get,
    has_own, prop, key, is_method_string, createMethodString,
    updateMethodString, deleteMethodString, method_string.
  destruct (lookup "method" o) as [m|]; [|reflexivity].
  destruct m; simpl; try reflexivity.
  destruct (String.eqb s "CREATE" || String.eqb s "UPDATE" || String.eqb s "DELETE");
    [|destruct (lookup "id" o), (lookup "item" o); reflexivity].
  destruct (lookup "id" o); [|reflexivity].
  destruct (lookup "item" o); reflexivity.
Qed.

Lemma simple_isUpdateMessage_obj o :
  Simple.isUpdateMessage (JObj o) = Normal (spec_accepts o).
Proof.
  unfold Simple.isUpdateMessage, spec_accepts, cand, cbind, js_in, js_get,
    has_own, prop, key, is_method_string, createMethodString,
    updateMethodString, deleteMethodString, method_string.
  destruct (lookup "method" o) as [m|]; [|reflexivity].
  destruct m; simpl; try reflexivity.
  destruct (String.eqb s "CREATE" || String.eqb s "UPDATE" || String.eqb s "DELETE");
    [|destruct (lookup "id" o) as [[]|], (lookup "item" o); reflexivity].
  destruct (lookup "id" o) as [i|]; [|reflexivity].
  destruct i; reflexivity.
Qed.

Lemma strict_isUpdateMessage_true v :
  Strict.isUpdateMessage v = Normal true <->
  exists o, v = JObj o /\ presence_accepts o = true.
Proof.
  split.
  - destruct v; try discriminate.
    rewrite strict_isUpdateMessage_obj. intros H. injection H as H. eauto.
  - intros (o & -> & H). now rewrite strict_isUpdateMessage_obj, H.
Qed.

Lemma accepted_shape d :
  accepted d = true <-> exists o, d = Json (JObj o) /\ presence_accepts o = true.
Proof.
  unfold accepted. destruct d as [|v]; simpl.
  - split; [discriminate | intros (o & H & _); discriminate].
  - split.
    + destruct (Strict.isUpdateMessage v) as [[]|] eqn:E; try discriminate.
      intros _. apply strict_isUpdateMessage_true in E as (o & -> & H). eauto.
    + intros (o & H & Hp). injection H as ->.
      now rewrite strict_isUpdateMessage_obj, Hp.
Qed.

(** ** What each method does *)

Ltac unfold_eff :=
  cbv beta iota delta [bind modify get emit throw ret lift call].

Lemma forEach_emit {A} (f : A -> event) (l : list A) (s : LiveGollection) :
  forEach l (fun x => emit (f x)) s = (Normal tt, s, map f l).
Proof.
  induction l as [|x l IH]; simpl.
  - reflexivity.
  - unfold bind at 1. unfold emit at 1. now rewrite IH.
Qed.

Lemma processUpdate_obj o s hc hu hd :
  _oncreate s = Some hc -> _onupdate s = Some hu -> _ondelete s = Some hd ->
  processUpdate (JObj o) s = (Normal tt, s, dispatch hc hu hd (JObj o)).
Proof.
  intros Hc Hu Hd.
  unfold processUpdate, dispatch, js_get, prop, key, createMethodString,
    updateMethodString, deleteMethodString, method_string.
  unfold_eff.
  destruct (lookup "method" o) as [m|]; [|reflexivity].
  destruct m; try reflexivity. unfold strict_eq_str.
  destruct (String.eqb s0 "CREATE"); [now rewrite Hc|].
  destruct (String.eqb s0 "UPDATE"); [now rewrite Hu|].
  destruct (String.eqb s0 "DELETE"); [now rewrite Hd|reflexivity].
Qed.

Lemma forEach_processUpdate l s hc hu hd :
  _oncreate s = Some hc -> _onupdate s = Some hu -> _ondelete s = Some hd ->
  Forall (fun v => accepted (Json v) = true) l ->
  forEach l processUpdate s = (Normal tt, s, flat_map (dispatch hc hu hd) l).
Proof.
  intros Hc Hu Hd Hl. induction Hl as [|v l Hv _ IH]; simpl.
  - reflexivity.
  - apply accepted_shape in Hv as (o & Ho & _). injection Ho as ->.
    unfold bind at 1. rewrite (processUpdate_obj o s hc hu hd Hc Hu Hd), IH.
    reflexivity.
Qed.

(** An accepted message is routed to exactly one callback. *)
Lemma dispatch_accepted hc hu hd v :
  accepted (Json v) = true -> List.length (dispatch hc hu hd v) = 1.
Proof.
  intros H. apply accepted_shape in H as (o & Ho & Hp). injection Ho as ->.
  unfold presence_accepts, is_method_string in Hp. unfold dispatch.
  destruct (lookup "method" o) as [[]|]; try discriminate.
  destruct (lookup "id" o); try discriminate.
  destruct (lookup "item" o); try discriminate.
  destruct (String.eqb s "CREATE"); [reflexivity|].
  destruct (String.eqb s "UPDATE"); [reflexivity|].
  destruct (String.eqb s "DELETE"); [reflexivity|discriminate].
Qed.

Lemma dispatch_is_mutation_callback hc hu hd v :
  forallb is_mutation_callback (dispatch hc hu hd v) = true.
Proof.
  unfold dispatch. destruct v; try reflexivity.
  destruct (lookup "method" props) as [[]|]; try reflexivity.
  destruct (String.eqb s "CREATE"); [reflexivity|].
  destruct (String.eqb s "UPDATE"); [reflexivity|].
  destruct (String.eqb s "DELETE"); reflexivity.
Qed.

Lemma craftAndSend_eq item m s :
  craftAndSendUpdateMessage item m s =
  if hasConnBeenOpened s
  then (Normal tt, s, [send_of (craft item m)])
  else (Normal tt,
        with_cachedUpdatesToSend (cachedUpdatesToSend s ++ [craft item m]) s, []).
Proof.
  unfold craftAndSendUpdateMessage. unfold_eff.
  destruct (hasConnBeenOpened s); reflexivity.
Qed.

Lemma ws_onopen_eq s :
  Inv s ->
  ws_onopen s =
  (Normal tt,
   with_cachedUpdatesToSend [] (with_hasConnBeenOpened true s),
   callback_events Call_onopen (_onopen s) ++ map send_of (cachedUpdatesToSend s)).
Proof.
  intros I. pose proof (inv_onopen s I) as Ho.
  unfold ws_onopen. unfold bind at 1. unfold modify at 1.
  unfold bind at 1. unfold get at 1.
  destruct s as [u op cl rx tx fc fu fd fo fx hc hu hd ho hx]; simpl in *.
  subst fo. unfold bind at 1.
  destruct ho as [h|]; simpl.
  - unfold bind, get, modify. simpl.
    rewrite (forEach_emit (fun m => Ws_send (JSON_stringify m))). simpl.
    now rewrite app_nil_r.
  - unfold bind, get, modify, ret. simpl.
    rewrite (forEach_emit (fun m => Ws_send (JSON_stringify m))). simpl.
    now rewrite app_nil_r.
Qed.

Lemma ws_onclose_eq s :
  Inv s ->
  ws_onclose s =
  (Normal tt, with_hasConnBeenClosed true s, callback_events Call_onclose (_onclose s)).
Proof.
  intros I. pose proof (inv_onclose s I) as Hx.
  destruct s as [u op cl rx tx fc fu fd fo fx hc hu hd ho hx]; simpl in *.
  subst fx. unfold ws_onclose. unfold_eff. simpl.
  destruct hx; reflexivity.
Qed.

Lemma set_onopen_eq h s :
  set_onopen h s =
  (Normal tt, with_isOnOpenSet true (with__onopen (Some h) s),
   if hasConnBeenOpened s then [Call_onopen h] else []).
Proof.
  destruct s as [u op cl rx tx fc fu fd fo fx hc hu hd ho hx].
  unfold set_onopen. unfold_eff. simpl. destruct op; reflexivity.
Qed.

Lemma set_onclose_eq h s :
  set_onclose h s =
  (Normal tt, with_isOnCloseSet true (with__onclose (Some h) s),
   if hasConnBeenClosed s then [Call_onclose h] else []).
Proof.
  destruct s as [u op cl rx tx fc fu fd fo fx hc hu hd ho hx].
  unfold set_onclose. unfold_eff. simpl. destruct cl; reflexivity.
Qed.

Lemma ws_onmessage_rejected d s :
  accepted d = false ->
  ws_onmessage d s =
  (match cbind (JSON_parse d) Strict.isUpdateMessage with
   | Normal _ => Normal tt
   | Throw e => Throw e
   end, s, []).
Proof.
  unfold accepted, ws_onmessage. intros H.
  destruct d as [|v]; simpl in *; [reflexivity|].
  unfold_eff.
  destruct (Strict.isUpdateMessage v) as [[]|]; try discriminate; reflexivity.
Qed.

Lemma ws_onmessage_cached v s :
  accepted (Json v) = true ->
  handlers_ready s = false ->
  ws_onmessage (Json v) s =
  (Normal tt, with_cachedReceivedUpdates (cachedReceivedUpdates s ++ [v]) s, []).
Proof.
  unfold accepted, ws_onmessage, handlers_ready. simpl. intros H R.
  unfold_eff.
  destruct (Strict.isUpdateMessage v) as [[]|]; try discriminate.
  destruct (isOnCreateSet s), (isOnUpdateSet s), (isOnDeleteSet s);
    try discriminate; reflexivity.
Qed.

Lemma ws_onmessage_dispatched v s hc hu hd :
  accepted (Json v) = true ->
  handlers_ready s = true ->
  _oncreate s = Some hc -> _onupdate s = Some hu -> _ondelete s = Some hd ->
  ws_onmessage (Json v) s = (Normal tt, s, dispatch hc hu hd v).
Proof.
  intros H R Hc Hu Hd.
  destruct (proj1 (accepted_shape _) H) as (o & Ho & Hp). injection Ho as ->.
  assert (E : Strict.isUpdateMessage (JObj o) = Normal true)
    by now rewrite strict_isUpdateMessage_obj, Hp.
  unfold handlers_ready in R.
  apply andb_prop in R as [R Rd]. apply andb_prop in R as [Rc Ru].
  unfold ws_onmessage.
  cbv beta iota delta [bind lift ret get JSON_parse].
  rewrite E. cbv beta iota. rewrite Rc, Ru, Rd. cbv beta iota delta [negb orb].
  now rewrite (processUpdate_obj o s hc hu hd Hc Hu Hd).
Qed.

(** The setter of the last missing handler replays the cache. *)
Lemma set_oncreate_drain h s hu hd :
  registers_last_missing (SetOnCreate h) s = true ->
  _onupdate s = Some hu -> _ondelete s = Some hd ->
  Forall (fun v => accepted (Json v) = true) (cachedReceivedUpdates s) ->
  set_oncreate h s =
  (Normal tt,
   with_isOnCreateSet true (with_cachedReceivedUpdates [] (with__oncreate (Some h) s)),
   flat_map (dispatch h hu hd) (cachedReceivedUpdates s)).
Proof.
  intros R Hu Hd Hl.
  destruct s as [u op cl rx tx fc fu fd fo fx hc hu' hd' ho hx]; simpl in *.
  subst hu' hd'. unfold set_oncreate.
  unfold bind at 1. unfold modify at 1. unfold bind at 1. unfold get at 1.
  cbn [with__oncreate isOnCreateSet isOnUpdateSet isOnDeleteSet cachedReceivedUpdates].
  rewrite R. unfold bind at 1. unfold bind at 1.
  rewrite (forEach_processUpdate rx _ h hu hd); auto.
  unfold modify. simpl. now rewrite !app_nil_r.
Qed.

Lemma set_onupdate_drain h s hc hd :
  registers_last_missing (SetOnUpdate h) s = true ->
  _oncreate s = Some hc -> _ondelete s = Some hd ->
  Forall (fun v => accepted (Json v) = true) (cachedReceivedUpdates s) ->
  set_onupdate h s =
  (Normal tt,
   with_isOnUpdateSet true (with_cachedReceivedUpdates [] (with__onupdate (Some h) s)),
   flat_map (dispatch hc h hd) (cachedReceivedUpdates s)).
Proof.
  intros R Hc Hd Hl.
  destruct s as [u op cl rx tx fc fu fd fo fx hc' hu hd' ho hx]; simpl in *.
  subst hc' hd'. unfold set_onupdate.
  unfold bind at 1. unfold modify at 1. unfold bind at 1. unfold get at 1.
  cbn [with__onupdate isOnCreateSet isOnUpdateSet isOnDeleteSet cachedReceivedUpdates].
  rewrite R. unfold bind at 1. unfold bind at 1.
  rewrite (forEach_processUpdate rx _ hc h hd); auto.
  unfold modify. simpl. now rewrite !app_nil_r.
Qed.

Lemma set_ondelete_drain h s hc hu :
  registers_last_missing (SetOnDelete h) s = true ->
  _oncreate s = Some hc -> _onupdate s = Some hu ->
  Forall (fun v => accepted (Json v) = true) (cachedReceivedUpdates s) ->
  set_ondelete h s =
  (Normal tt,
   with_isOnDeleteSet true (with_cachedReceivedUpdates [] (with__ondelete (Some h) s)),
   flat_map (dispatch hc hu h) (cachedReceivedUpdates s)).
Proof.
  intros R Hc Hu Hl.
  destruct s as [u op cl rx tx fc fu fd fo fx hc' hu' hd ho hx]; simpl in *.
  subst hc' hu'. unfold set_ondelete.
  unfold bind at 1. unfold modify at 1. unfold bind at 1. unfold get at 1.
  cbn [with__ondelete isOnCreateSet isOnUpdateSet isOnDeleteSet cachedReceivedUpdates].
  rewrite R. unfold bind at 1. unfold bind at 1.
  rewrite (forEach_processUpdate rx _ hc hu h); auto.
  unfold modify. simpl. now rewrite !app_nil_r.
Qed.

(** Any other assignment of a handler only stores it and raises the flag. *)
Lemma set_oncreate_plain h s :
  registers_last_missing (SetOnCreate h) s = false ->
  set_oncreate h s =
  (Normal tt, with_isOnCreateSet true (with__oncreate (Some h) s), []).
Proof.
  intros R.
  destruct s as [u op cl rx tx fc fu fd fo fx hc hu hd ho hx]; simpl in *.
  unfold set_oncreate. unfold_eff. simpl. now rewrite R.
Qed.

Lemma set_onupdate_plain h s :
  registers_last_missing (SetOnUpdate h) s = false ->
  set_onupdate h s =
  (Normal tt, with_isOnUpdateSet true (with__onupdate (Some h) s), []).
Proof.
  intros R.
  destruct s as [u op cl rx tx fc fu fd fo fx hc hu hd ho hx]; simpl in *.
  unfold set_onupdate. unfold_eff. simpl. now rewrite R.
Qed.

Lemma set_ondelete_plain h s :
  registers_last_missing (SetOnDelete h) s = false ->
  set_ondelete h s =
  (Normal tt, with_isOnDeleteSet true (with__ondelete (Some h) s), []).
Proof.
  intros R.
  destruct s as [u op cl rx tx fc fu fd fo fx hc hu hd ho hx]; simpl in *.
  unfold set_ondelete. unfold_eff. simpl. now rewrite R.
Qed.

(** ** The invariant holds along every run *)

Lemma is_some_ex {A} (x : option A) : is_some x = true -> exists a, x = Some a.
Proof. destruct x as [a|]; [eauto | discriminate]. Qed.

Lemma Inv_init u : Inv (new_LiveGollection u).
Proof. constructor; simpl; auto; discriminate. Qed.

(** The three handlers of a ready instance. *)
Lemma ready_handlers s :
  Inv s -> handlers_ready s = true ->
  exists hc hu hd,
    _oncreate s = Some hc /\ _onupdate s = Some hu /\ _ondelete s = Some hd.
Proof.
  intros I R. unfold handlers_ready in R.
  apply andb_prop in R as [R Rd]. apply andb_prop in R as [Rc Ru].
  destruct (is_some_ex _ (inv_oncreate s I Rc)) as [hc Hc].
  destruct (is_some_ex _ (inv_onupdate s I Ru)) as [hu Hu].
  destruct (is_some_ex _ (inv_ondelete s I Rd)) as [hd Hd].
  now exists hc, hu, hd.
Qed.

Ltac flags :=
  repeat match goal with
         | H : _ && _ = true |- _ => apply andb_prop in H as [? ?]
         | H : negb _ = true |- _ => apply negb_true_iff in H
         end.

Ltac split_state s :=
  destruct s as [?u ?op ?cl ?rx ?tx ?fc ?fu ?fd ?fo ?fx ?hc ?hu ?hd ?ho ?hx];
  simpl in *.

Lemma Inv_step o s : Inv s -> Inv (after o s).
Proof.
  intros I. unfold after. destruct o as [|d| |i|i|i|h|h|h|h|h]; unfold step.
  - rewrite (ws_onopen_eq s I). destruct I. split_state s.
    constructor; unfold handlers_ready in *; simpl in *; auto.
  - destruct (accepted d) eqn:A.
    + destruct (proj1 (accepted_shape _) A) as (o & -> & Hp).
      destruct (handlers_ready s) eqn:R.
      * destruct (ready_handlers s I R) as (hc & hu & hd & Hc & Hu & Hd).
        now rewrite (ws_onmessage_dispatched _ s hc hu hd A R Hc Hu Hd).
      * rewrite (ws_onmessage_cached _ s A R). destruct I.
        unfold handlers_ready in *. split_state s.
        constructor; unfold handlers_ready in *; simpl in *; auto.
        -- apply Forall_app; auto.
        -- congruence.
    + now rewrite (ws_onmessage_rejected d s A).
  - rewrite (ws_onclose_eq s I). destruct I. split_state s.
    constructor; unfold handlers_ready in *; simpl in *; auto.
  - unfold create. rewrite craftAndSend_eq.
    destruct (hasConnBeenOpened s) eqn:O; [exact I|].
    destruct I. split_state s. constructor; unfold handlers_ready in *; simpl in *; auto. congruence.
  - unfold update. rewrite craftAndSend_eq.
    destruct (hasConnBeenOpened s) eqn:O; [exact I|].
    destruct I. split_state s. constructor; unfold handlers_ready in *; simpl in *; auto. congruence.
  - unfold delete. rewrite craftAndSend_eq.
    destruct (hasConnBeenOpened s) eqn:O; [exact I|].
    destruct I. split_state s. constructor; unfold handlers_ready in *; simpl in *; auto. congruence.
  - destruct (registers_last_missing (SetOnCreate h) s) eqn:R.
    + pose proof R as R'. simpl in R'. flags.
      destruct (is_some_ex _ (inv_onupdate s I ltac:(assumption))) as [hu Hu].
      destruct (is_some_ex _ (inv_ondelete s I ltac:(assumption))) as [hd Hd].
      rewrite (set_oncreate_drain h s hu hd R Hu Hd (inv_cache s I)).
      destruct I. split_state s. constructor; unfold handlers_ready in *; simpl in *; auto.
    + rewrite (set_oncreate_plain h s R). destruct I.
      unfold handlers_ready in *. split_state s.
      constructor; unfold handlers_ready in *; simpl in *; auto.
      intros E. apply inv_drained0. destruct fc; [exact E|].
      simpl in R. congruence.
  - destruct (registers_last_missing (SetOnUpdate h) s) eqn:R.
    + pose proof R as R'. simpl in R'. flags.
      destruct (is_some_ex _ (inv_oncreate s I ltac:(assumption))) as [hc Hc].
      destruct (is_some_ex _ (inv_ondelete s I ltac:(assumption))) as [hd Hd].
      rewrite (set_onupdate_drain h s hc hd R Hc Hd (inv_cache s I)).
      destruct I. split_state s. constructor; unfold handlers_ready in *; simpl in *; auto.
    + rewrite (set_onupdate_plain h s R). destruct I.
      unfold handlers_ready in *. split_state s.
      constructor; unfold handlers_ready in *; simpl in *; auto.
      intros E. apply inv_drained0. destruct fc, fu, fd; simpl in *; congruence.
  - destruct (registers_last_missing (SetOnDelete h) s) eqn:R.
    + pose proof R as R'. simpl in R'. flags.
      destruct (is_some_ex _ (inv_oncreate s I ltac:(assumption))) as [hc Hc].
      destruct (is_some_ex _ (inv_onupdate s I ltac:(assumption))) as [hu Hu].
      rewrite (set_ondelete_drain h s hc hu R Hc Hu (inv_cache s I)).
      destruct I. split_state s. constructor; unfold handlers_ready in *; simpl in *; auto.
    + rewrite (set_ondelete_plain h s R). destruct I.
      unfold handlers_ready in *. split_state s.
      constructor; unfold handlers_ready in *; simpl in *; auto.
      intros E. apply inv_drained0. destruct fc, fu, fd; simpl in *; congruence.
  - rewrite set_onopen_eq. destruct I. split_state s.
    constructor; unfold handlers_ready in *; simpl in *; auto.
  - rewrite set_onclose_eq. destruct I. split_state s.
    constructor; unfold handlers_ready in *; simpl in *; auto.
Qed.

Lemma Inv_exec ops s : Inv s -> Inv (exec ops s).
Proof.
  revert s. induction ops as [|o ops IH]; simpl; intros s I.
  - exact I.
  - apply IH, Inv_step, I.
Qed.


Lemma trace_app ops1 ops2 s :
  trace (ops1 ++ ops2) s = trace ops1 s ++ trace ops2 (exec ops1 s).
Proof.
  revert s. induction ops1 as [|o ops1 IH]; simpl; intros s; auto.
  now rewrite IH, app_assoc.
Qed.

(** ** Closed form of a step *)

Lemma step_summary o s : Inv s -> step o s = summary o s.
Proof.
  intros I. destruct o as [|d| |i|i|i|h|h|h|h|h]; unfold step, summary.
  - apply ws_onopen_eq, I.
  - destruct d as [|v]; [reflexivity|].
    destruct (accepted (Json v)) eqn:A.
    + destruct (proj1 (accepted_shape _) A) as (o & Ho & Hp). injection Ho as ->.
      rewrite strict_isUpdateMessage_obj, Hp.
      destruct (handlers_ready s) eqn:R.
      * destruct (ready_handlers s I R) as (hc & hu & hd & Hc & Hu & Hd).
        rewrite (ws_onmessage_dispatched _ s hc hu hd A R Hc Hu Hd).
        unfold replay. rewrite Hc, Hu, Hd. simpl. now rewrite app_nil_r.
      * apply ws_onmessage_cached; assumption.
    + rewrite (ws_onmessage_rejected _ s A). unfold accepted in A. simpl in *.
      destruct (Strict.isUpdateMessage v) as [[]|]; try discriminate; reflexivity.
  - apply ws_onclose_eq, I.
  - apply craftAndSend_eq.
  - apply craftAndSend_eq.
  - apply craftAndSend_eq.
  - destruct (registers_last_missing (SetOnCreate h) s) eqn:R.
    + pose proof R as R'. simpl in R'. flags.
      destruct (is_some_ex _ (inv_onupdate s I ltac:(assumption))) as [hu Hu].
      destruct (is_some_ex _ (inv_ondelete s I ltac:(assumption))) as [hd Hd].
      rewrite (set_oncreate_drain h s hu hd R Hu Hd (inv_cache s I)).
      unfold replay. split_state s. now subst.
    + apply set_oncreate_plain, R.
  - destruct (registers_last_missing (SetOnUpdate h) s) eqn:R.
    + pose proof R as R'. simpl in R'. flags.
      destruct (is_some_ex _ (inv_oncreate s I ltac:(assumption))) as [hc Hc].
      destruct (is_some_ex _ (inv_ondelete s I ltac:(assumption))) as [hd Hd].
      rewrite (set_onupdate_drain h s hc hd R Hc Hd (inv_cache s I)).
      unfold replay. split_state s. now subst.
    + apply set_onupdate_plain, R.
  - destruct (registers_last_missing (SetOnDelete h) s) eqn:R.
    + pose proof R as R'. simpl in R'. flags.
      destruct (is_some_ex _ (inv_oncreate s I ltac:(assumption))) as [hc Hc].
      destruct (is_some_ex _ (inv_onupdate s I ltac:(assumption))) as [hu Hu].
      rewrite (set_ondelete_drain h s hc hu R Hc Hu (inv_cache s I)).
      unfold replay. split_state s. now subst.
    + apply set_ondelete_plain, R.
  - apply set_onopen_eq.
  - apply set_onclose_eq.
Qed.

Lemma after_summary o s : Inv s -> after o s = snd (fst (summary o s)).
Proof. intros I. unfold after. now rewrite step_summary. Qed.

Lemma emitted_summary o s : Inv s -> emitted o s = snd (summary o s).
Proof. intros I. unfold emitted. now rewrite step_summary. Qed.

Lemma result_summary o s : Inv s -> result o s = fst (fst (summary o s)).
Proof. intros I. unfold result. now rewrite step_summary. Qed.

Ltac summary_cases o s :=
  destruct o as [|[|?v]| |?i|?i|?i|?h|?h|?h|?h|?h];
  unfold summary, send_or_enqueue, enqueue;
  try match goal with
      | |- context [Strict.isUpdateMessage ?v] =>
          destruct (Strict.isUpdateMessage v) as [[]|] eqn:?
      end;
  repeat match goal with
         | |- context [if ?b then _ else _] => destruct b eqn:?
         end;
  split_state s.

(** ** The flags only ever go up *)

Lemma after_flags o s :
  Inv s ->
  hasConnBeenOpened (after o s) = hasConnBeenOpened s || is_WsOpen o /\
  hasConnBeenClosed (after o s) = hasConnBeenClosed s || is_WsClose o /\
  isOnCreateSet (after o s) = isOnCreateSet s || is_SetOnCreate o /\
  isOnUpdateSet (after o s) = isOnUpdateSet s || is_SetOnUpdate o /\
  isOnDeleteSet (after o s) = isOnDeleteSet s || is_SetOnDelete o /\
  isOnOpenSet (after o s) = isOnOpenSet s || is_SetOnOpen o /\
  isOnCloseSet (after o s) = isOnCloseSet s || is_SetOnClose o.
Proof.
  intros I. rewrite (after_summary o s I). clear I.
  summary_cases o s; rewrite ?orb_false_r, ?orb_true_r; repeat split;
    assumption.
Qed.

Section Monotone.
Variable f : LiveGollection -> bool.
Variable p : op -> bool.
Hypothesis f_after : forall o s, Inv s -> f (after o s) = f s || p o.

Lemma exec_flag ops s :
  Inv s -> f (exec ops s) = f s || existsb p ops.
Proof.
  revert s. induction ops as [|o ops IH]; simpl; intros s I.
  - now rewrite orb_false_r.
  - rewrite IH by now apply Inv_step.
    rewrite f_after by assumption. now rewrite orb_assoc.
Qed.

Lemma flips_set ops s : Inv s -> f s = true -> flips f ops s = 0.
Proof.
  revert s. induction ops as [|o ops IH]; simpl; intros s I F; [reflexivity|].
  rewrite F. simpl. apply IH; [now apply Inv_step|].
  rewrite f_after by assumption. now rewrite F.
Qed.

Lemma flips_once ops s : Inv s -> flips f ops s <= 1.
Proof.
  revert s. induction ops as [|o ops IH]; simpl; intros s I; [lia|].
  destruct (negb (f s) && f (after o s)) eqn:E.
  - apply andb_prop in E as [_ E].
    rewrite flips_set; [lia | now apply Inv_step | exact E].
  - simpl. apply IH. now apply Inv_step.
Qed.

Lemma never_reset ops s : Inv s -> resets f ops s = 0.
Proof.
  revert s. induction ops as [|o ops IH]; simpl; intros s I; [reflexivity|].
  rewrite f_after by assumption. rewrite IH by now apply Inv_step.
  destruct (f s); reflexivity.
Qed.
End Monotone.

Lemma exec_hasConnBeenOpened ops s :
  Inv s -> hasConnBeenOpened (exec ops s) = hasConnBeenOpened s || existsb is_WsOpen ops.
Proof. apply exec_flag. intros o s' I. apply (after_flags o s' I). Qed.

Lemma exec_hasConnBeenClosed ops s :
  Inv s -> hasConnBeenClosed (exec ops s) = hasConnBeenClosed s || existsb is_WsClose ops.
Proof. apply exec_flag. intros o s' I. apply (after_flags o s' I). Qed.

Lemma exec_isOnCreateSet ops s :
  Inv s -> isOnCreateSet (exec ops s) = isOnCreateSet s || existsb is_SetOnCreate ops.
Proof. apply exec_flag. intros o s' I. apply (after_flags o s' I). Qed.

Lemma exec_isOnUpdateSet ops s :
  Inv s -> isOnUpdateSet (exec ops s) = isOnUpdateSet s || existsb is_SetOnUpdate ops.
Proof. apply exec_flag. intros o s' I. apply (after_flags o s' I). Qed.

Lemma exec_isOnDeleteSet ops s :
  Inv s -> isOnDeleteSet (exec ops s) = isOnDeleteSet s || existsb is_SetOnDelete ops.
Proof. apply exec_flag. intros o s' I. apply (after_flags o s' I). Qed.




(** ** The connection lifecycle *)

Lemma rank_after o s : Inv s -> rank (conn s) <= rank (conn (after o s)).
Proof.
  intros I. unfold conn.
  destruct (after_flags o s I) as (-> & -> & _).
  destruct (hasConnBeenClosed s), (hasConnBeenOpened s), (is_WsOpen o),
    (is_WsClose o); simpl; lia.
Qed.

Lemma conn_eqb_rank a b : conn_eqb a b = true <-> rank a = rank b.
Proof. unfold conn_eqb. apply Nat.eqb_eq. Qed.

Lemma transitions_past a b ops s :
  Inv s -> rank a < rank (conn s) -> transitions a b ops s = 0.
Proof.
  revert s. induction ops as [|o ops IH]; simpl; intros s I L; [reflexivity|].
  destruct (conn_eqb (conn s) a) eqn:E.
  - apply conn_eqb_rank in E. lia.
  - simpl. apply IH; [now apply Inv_step|].
    pose proof (rank_after o s I). lia.
Qed.

Lemma transitions_back a b ops s :
  Inv s -> rank b < rank a -> transitions a b ops s = 0.
Proof.
  revert s. induction ops as [|o ops IH]; simpl; intros s I L; [reflexivity|].
  rewrite IH by (try apply Inv_step; assumption).
  destruct (conn_eqb (conn s) a) eqn:Ea; [|reflexivity].
  destruct (conn_eqb (conn (after o s)) b) eqn:Eb; [|reflexivity].
  apply conn_eqb_rank in Ea, Eb. pose proof (rank_after o s I). lia.
Qed.

Lemma transitions_once a b ops s :
  Inv s -> rank a < rank b -> transitions a b ops s <= 1.
Proof.
  revert s. induction ops as [|o ops IH]; simpl; intros s I L; [lia|].
  destruct (conn_eqb (conn s) a && conn_eqb (conn (after o s)) b) eqn:E.
  - apply andb_prop in E as [_ Eb]. apply conn_eqb_rank in Eb.
    rewrite transitions_past; [lia | now apply Inv_step | lia].
  - simpl. apply IH; [now apply Inv_step | exact L].
Qed.

(** C9: along every run of a fresh instance the connection only moves
    forward through not-yet-open, open, closed: no step moves it
    backwards, and each forward transition is taken by at most one step;
    each of the five handler-registration flags is turned from false to
    true by at most one step and is never turned back to false. *)
Theorem monotonic_lifecycle_and_flags :
  forall (u : string) (ops : list op),
    let s0 := new_LiveGollection u in
    (transitions open not_yet_open ops s0 = 0 /\
     transitions closed open ops s0 = 0 /\
     transitions closed not_yet_open ops s0 = 0) /\
    (transitions not_yet_open open ops s0 <= 1 /\
     transitions open closed ops s0 <= 1 /\
     transitions not_yet_open closed ops s0 <= 1) /\
    Forall (fun f => flips f ops s0 <= 1 /\ resets f ops s0 = 0)
           registration_flags.
Proof.
  intros u ops s0. pose proof (Inv_init u) as I. fold s0 in I.
  split; [|split].
  - repeat split; apply transitions_back; simpl; auto.
  - repeat split; apply transitions_once; simpl; auto.
  - unfold registration_flags.
    repeat (apply Forall_cons; [split|]); try apply Forall_nil.
    + apply flips_once with (p := is_SetOnCreate); [|exact I].
      intros o s I'; apply (after_flags o s I').
    + apply never_reset with (p := is_SetOnCreate); [|exact I].
      intros o s I'; apply (after_flags o s I').
    + apply flips_once with (p := is_SetOnUpdate); [|exact I].
      intros o s I'; apply (after_flags o s I').
    + apply never_reset with (p := is_SetOnUpdate); [|exact I].
      intros o s I'; apply (after_flags o s I').
    + apply flips_once with (p := is_SetOnDelete); [|exact I].
      intros o s I'; apply (after_flags o s I').
    + apply never_reset with (p := is_SetOnDelete); [|exact I].
      intros o s I'; apply (after_flags o s I').
    + apply flips_once with (p := is_SetOnOpen); [|exact I].
      intros o s I'; apply (after_flags o s I').
    + apply never_reset with (p := is_SetOnOpen); [|exact I].
      intros o s I'; apply (after_flags o s I').
    + apply flips_once with (p := is_SetOnClose); [|exact I].
      intros o s I'; apply (after_flags o s I').
    + apply never_reset with (p := is_SetOnClose); [|exact I].
      intros o s I'; apply (after_flags o s I').
Qed.

(** ** The gate *)

Lemma existsb_map_send (p : event -> bool) l :
  (forall m, p (send_of m) = false) -> existsb p (map send_of l) = false.
Proof.
  intros H. induction l as [|m l IH]; simpl; [reflexivity|].
  now rewrite H, IH.
Qed.






(** ** The cache of received updates *)

Lemma accepted_Json v :
  accepted (Json v) =
  match Strict.isUpdateMessage v with Normal true => true | _ => false end.
Proof. reflexivity. Qed.









(** ** The queue of updates to send *)

Lemma outbound_cons o ops : outbound (o :: ops) = outbound [o] ++ outbound ops.
Proof. destruct o; reflexivity. Qed.

Lemma outbound_app ops1 ops2 :
  outbound (ops1 ++ ops2) = outbound ops1 ++ outbound ops2.
Proof.
  induction ops1 as [|o ops1 IH]; [reflexivity|].
  destruct o; simpl; now rewrite IH.
Qed.

Lemma not_send_dispatch hc hu hd v :
  existsb is_send (dispatch hc hu hd v) = false.
Proof.
  unfold dispatch. destruct v; try reflexivity.
  destruct (lookup "method" props) as [[]|]; try reflexivity.
  destruct (String.eqb s "CREATE"); [reflexivity|].
  destruct (String.eqb s "UPDATE"); [reflexivity|].
  destruct (String.eqb s "DELETE"); reflexivity.
Qed.

Lemma not_send_replay s l : existsb is_send (replay s l) = false.
Proof.
  unfold replay.
  destruct (_oncreate s), (_onupdate s), (_ondelete s); try reflexivity.
  induction l as [|v l IH]; simpl; [reflexivity|].
  now rewrite existsb_app, not_send_dispatch, IH.
Qed.

(** While the connection has not been opened, a step sends nothing and
    appends to the queue exactly what it crafts. *)
Lemma queue_after o s :
  Inv s ->
  hasConnBeenOpened (after o s) = false ->
  cachedUpdatesToSend (after o s) = cachedUpdatesToSend s ++ outbound [o] /\
  existsb is_send (emitted o s) = false.
Proof.
  intros I O.
  assert (O0 : hasConnBeenOpened s = false /\ is_WsOpen o = false).
  { destruct (after_flags o s I) as (E & _). rewrite E in O.
    now apply orb_false_elim in O. }
  destruct O0 as [O0 W]. clear O.
  rewrite (after_summary o s I), (emitted_summary o s I).
  destruct o as [|[|v]| |i|i|i|h|h|h|h|h]; try discriminate;
    unfold summary, send_or_enqueue, enqueue; rewrite ?O0; simpl outbound.
  - split_state s. now rewrite app_nil_r.
  - destruct (Strict.isUpdateMessage v) as [[]|];
      try destruct (handlers_ready s);
      split_state s; rewrite app_nil_r; split; auto.
    apply (not_send_replay _ [v]).
  - split_state s. rewrite app_nil_r. split; auto. destruct hx; reflexivity.
  - split_state s. auto.
  - split_state s. auto.
  - split_state s. auto.
  - destruct (registers_last_missing (SetOnCreate h) s);
      split_state s; rewrite app_nil_r; split; auto.
    apply (not_send_replay _ rx).
  - destruct (registers_last_missing (SetOnUpdate h) s);
      split_state s; rewrite app_nil_r; split; auto.
    apply (not_send_replay _ rx).
  - destruct (registers_last_missing (SetOnDelete h) s);
      split_state s; rewrite app_nil_r; split; auto.
    apply (not_send_replay _ rx).
  - split_state s. now rewrite app_nil_r.
  - split_state s. rewrite app_nil_r. split; auto. destruct cl; reflexivity.
Qed.

Lemma not_opened_before ops s :
  Inv s -> hasConnBeenOpened (exec ops s) = false ->
  hasConnBeenOpened s = false /\ existsb is_WsOpen ops = false.
Proof.
  intros I O. rewrite (exec_hasConnBeenOpened ops s I) in O.
  now apply orb_false_elim in O.
Qed.

Lemma queue_exec ops s :
  Inv s ->
  hasConnBeenOpened (exec ops s) = false ->
  cachedUpdatesToSend (exec ops s) = cachedUpdatesToSend s ++ outbound ops /\
  existsb is_send (trace ops s) = false.
Proof.
  revert s. induction ops as [|o ops IH]; simpl exec; simpl trace; intros s I O.
  - simpl. now rewrite app_nil_r.
  - pose proof (Inv_step o s I) as I'.
    destruct (IH _ I' O) as [Q T].
    destruct (not_opened_before ops _ I' O) as [O' _].
    destruct (queue_after o s I O') as [Q' T'].
    rewrite Q, Q', (outbound_cons o ops), existsb_app, T, T'.
    rewrite <- app_assoc. split; reflexivity.
Qed.

(** The handler fields follow the last assignment. *)
Lemma onopen_after o s :
  Inv s -> _onopen (after o s) = last_onopen [o] (_onopen s).
Proof.
  intros I. rewrite (after_summary o s I). clear I.
  summary_cases o s; reflexivity.
Qed.

Lemma onclose_after o s :
  Inv s -> _onclose (after o s) = last_onclose [o] (_onclose s).
Proof.
  intros I. rewrite (after_summary o s I). clear I.
  summary_cases o s; reflexivity.
Qed.

Lemma onopen_exec ops s :
  Inv s -> _onopen (exec ops s) = last_onopen ops (_onopen s).
Proof.
  revert s. induction ops as [|o ops IH]; simpl exec; intros s I; [reflexivity|].
  rewrite IH by now apply Inv_step. rewrite (onopen_after o s I).
  destruct o; reflexivity.
Qed.

Lemma onclose_exec ops s :
  Inv s -> _onclose (exec ops s) = last_onclose ops (_onclose s).
Proof.
  revert s. induction ops as [|o ops IH]; simpl exec; intros s I; [reflexivity|].
  rewrite IH by now apply Inv_step. rewrite (onclose_after o s I).
  destruct o; reflexivity.
Qed.



(** A call of [create], [update] or [delete] never throws. *)
Lemma mutation_call_returns o s :
  is_mutation_call o = true -> result o s = Normal tt.
Proof.
  unfold result.
  destruct o; try discriminate; intros _; simpl;
    unfold create, update, delete; rewrite craftAndSend_eq;
    destruct (hasConnBeenOpened s); reflexivity.
Qed.



(** C10: in a run of a fresh instance in which the websocket closes and
    never opens, nothing is ever sent; the queue holds, in call order,
    every message crafted by the [create]/[update]/[delete] calls made
    before and after the close; and none of these calls throws. *)
Theorem queue_lost_without_open :
  forall (u : string) (pre post : list op),
    let ops := pre ++ WsClose :: post in
    existsb is_WsOpen ops = false ->
    existsb is_send (trace ops (new_LiveGollection u)) = false /\
    cachedUpdatesToSend (exec ops (new_LiveGollection u)) =
      outbound pre ++ outbound post /\
    conn (exec ops (new_LiveGollection u)) = closed /\
    (forall a o,
        is_mutation_call o = true ->
        result o (exec a (new_LiveGollection u)) = Normal tt).
Proof.
  intros u pre post ops W.
  pose proof (Inv_init u) as I0.
  assert (O : hasConnBeenOpened (exec ops (new_LiveGollection u)) = false).
  { now rewrite exec_hasConnBeenOpened, W. }
  destruct (queue_exec ops _ I0 O) as [Q T].
  repeat split.
  - exact T.
  - rewrite Q. unfold ops. now rewrite outbound_app.
  - unfold conn. rewrite exec_hasConnBeenClosed by assumption.
    unfold ops. rewrite existsb_app. simpl. now rewrite orb_true_r.
  - intros a o C. now apply mutation_call_returns.
Qed.

Lemma queue_lost_without_open_witness :
  existsb is_WsOpen
          ([Create [("fieldOne", JStr "x")]] ++ WsClose :: [Delete [("id", JStr "42")]])
    = false /\
  existsb is_send
          (trace ([Create [("fieldOne", JStr "x")]] ++ WsClose :: [Delete [("id", JStr "42")]])
                 init) = false /\
  cachedUpdatesToSend
    (exec ([Create [("fieldOne", JStr "x")]] ++ WsClose :: [Delete [("id", JStr "42")]])
          init) =
    [craft [("fieldOne", JStr "x")] CREATE; craft [("id", JStr "42")] DELETE].
Proof.
  assert (H : existsb is_WsOpen
                ([Create [("fieldOne", JStr "x")]] ++ WsClose :: [Delete [("id", JStr "42")]])
              = false) by reflexivity.
  split; [exact H|].
  destruct (queue_lost_without_open "ws://localhost:8080/livegollection"
              [Create [("fieldOne", JStr "x")]] [Delete [("id", JStr "42")]] H)
    as (T & Q & _).
  split; [exact T | exact Q].
Defined.

(** ** [onopen] and [onclose] *)

Lemma last_onopen_unchanged ops acc :
  existsb is_SetOnOpen ops = false -> last_onopen ops acc = acc.
Proof.
  revert acc. induction ops as [|o ops IH]; simpl; intros acc H; [reflexivity|].
  apply orb_false_elim in H as [Ho H]. destruct o; try discriminate; auto.
Qed.

Lemma last_onclose_unchanged ops acc :
  existsb is_SetOnClose ops = false -> last_onclose ops acc = acc.
Proof.
  revert acc. induction ops as [|o ops IH]; simpl; intros acc H; [reflexivity|].
  apply orb_false_elim in H as [Ho H]. destruct o; try discriminate; auto.
Qed.

Lemma not_open_callback_replay s l : existsb is_open_callback (replay s l) = false.
Proof.
  unfold replay.
  destruct (_oncreate s), (_onupdate s), (_ondelete s); try reflexivity.
  induction l as [|v l IH]; simpl; [reflexivity|].
  rewrite existsb_app, IH, orb_false_r.
  pose proof (dispatch_is_mutation_callback h h0 h1 v) as D.
  induction (dispatch h h0 h1 v) as [|e t IHt]; [reflexivity|].
  simpl in *. apply andb_prop in D as [De Dt].
  rewrite (IHt Dt). destruct e; try discriminate; reflexivity.
Qed.

Lemma not_close_callback_replay s l : existsb is_close_callback (replay s l) = false.
Proof.
  unfold replay.
  destruct (_oncreate s), (_onupdate s), (_ondelete s); try reflexivity.
  induction l as [|v l IH]; simpl; [reflexivity|].
  rewrite existsb_app, IH, orb_false_r.
  pose proof (dispatch_is_mutation_callback h h0 h1 v) as D.
  induction (dispatch h h0 h1 v) as [|e t IHt]; [reflexivity|].
  simpl in *. apply andb_prop in D as [De Dt].
  rewrite (IHt Dt). destruct e; try discriminate; reflexivity.
Qed.

(** [onopen] is called only by the open event and by its own setter. *)
Lemma open_quiet_step o s :
  Inv s -> is_WsOpen o = false -> is_SetOnOpen o = false ->
  existsb is_open_callback (emitted o s) = false.
Proof.
  intros I W S. rewrite (emitted_summary o s I).
  destruct o as [|[|v]| |i|i|i|h|h|h|h|h]; try discriminate;
    unfold summary, send_or_enqueue.
  - reflexivity.
  - destruct (Strict.isUpdateMessage v) as [[]|];
      try destruct (handlers_ready s); try reflexivity.
    apply not_open_callback_replay.
  - simpl. destruct (_onclose s); reflexivity.
  - destruct (hasConnBeenOpened s); reflexivity.
  - destruct (hasConnBeenOpened s); reflexivity.
  - destruct (hasConnBeenOpened s); reflexivity.
  - destruct (registers_last_missing (SetOnCreate h) s); try reflexivity.
    apply not_open_callback_replay.
  - destruct (registers_last_missing (SetOnUpdate h) s); try reflexivity.
    apply not_open_callback_replay.
  - destruct (registers_last_missing (SetOnDelete h) s); try reflexivity.
    apply not_open_callback_replay.
  - simpl. destruct (hasConnBeenClosed s); reflexivity.
Qed.

Lemma close_quiet_step o s :
  Inv s -> is_WsClose o = false -> is_SetOnClose o = false ->
  existsb is_close_callback (emitted o s) = false.
Proof.
  intros I W S. rewrite (emitted_summary o s I).
  destruct o as [|[|v]| |i|i|i|h|h|h|h|h]; try discriminate;
    unfold summary, send_or_enqueue.
  - simpl. rewrite existsb_app, existsb_map_send by reflexivity.
    destruct (_onopen s); reflexivity.
  - reflexivity.
  - destruct (Strict.isUpdateMessage v) as [[]|];
      try destruct (handlers_ready s); try reflexivity.
    apply not_close_callback_replay.
  - destruct (hasConnBeenOpened s); reflexivity.
  - destruct (hasConnBeenOpened s); reflexivity.
  - destruct (hasConnBeenOpened s); reflexivity.
  - destruct (registers_last_missing (SetOnCreate h) s); try reflexivity.
    apply not_close_callback_replay.
  - destruct (registers_last_missing (SetOnUpdate h) s); try reflexivity.
    apply not_close_callback_replay.
  - destruct (registers_last_missing (SetOnDelete h) s); try reflexivity.
    apply not_close_callback_replay.
  - simpl. destruct (hasConnBeenOpened s); reflexivity.
Qed.

Lemma open_quiet_run ops s :
  Inv s -> existsb is_WsOpen ops = false -> existsb is_SetOnOpen ops = false ->
  existsb is_open_callback (trace ops s) = false.
Proof.
  revert s. induction ops as [|o ops IH]; simpl; intros s I W S; [reflexivity|].
  apply orb_false_elim in W as [Wo W]. apply orb_false_elim in S as [So S].
  rewrite existsb_app, (open_quiet_step o s I Wo So). simpl.
  apply IH; [now apply Inv_step | exact W | exact S].
Qed.

Lemma close_quiet_run ops s :
  Inv s -> existsb is_WsClose ops = false -> existsb is_SetOnClose ops = false ->
  existsb is_close_callback (trace ops s) = false.
Proof.
  revert s. induction ops as [|o ops IH]; simpl; intros s I W S; [reflexivity|].
  apply orb_false_elim in W as [Wo W]. apply orb_false_elim in S as [So S].
  rewrite existsb_app, (close_quiet_step o s I Wo So). simpl.
  apply IH; [now apply Inv_step | exact W | exact S].
Qed.

(** C7: on an instance reached by a run of a fresh one, (1) setting
    [onopen] after the open event calls the handler at once, once, and it
    is not called again by later steps (other than a further open event or
    assignment of [onopen]); (2) likewise for [onclose] after the close
    event; (3) setting [onopen] before the open event calls nothing, the
    handler is not called by the steps that follow until the open event,
    and the open event calls it once, before anything else it does;
    (4) likewise for [onclose] and the close event. *)
Theorem open_close_catch_up :
  forall (u : string) (pre : list op) (h : handler) (mid : list op),
    let s := exec pre (new_LiveGollection u) in
    (hasConnBeenOpened s = true ->
     existsb is_WsOpen mid = false -> existsb is_SetOnOpen mid = false ->
     result (SetOnOpen h) s = Normal tt /\
     emitted (SetOnOpen h) s = [Call_onopen h] /\
     existsb is_open_callback (trace mid (after (SetOnOpen h) s)) = false) /\
    (hasConnBeenClosed s = true ->
     existsb is_WsClose mid = false -> existsb is_SetOnClose mid = false ->
     result (SetOnClose h) s = Normal tt /\
     emitted (SetOnClose h) s = [Call_onclose h] /\
     existsb is_close_callback (trace mid (after (SetOnClose h) s)) = false) /\
    (hasConnBeenOpened s = false ->
     existsb is_WsOpen mid = false -> existsb is_SetOnOpen mid = false ->
     emitted (SetOnOpen h) s = [] /\
     existsb is_open_callback (trace mid (after (SetOnOpen h) s)) = false /\
     emitted WsOpen (exec mid (after (SetOnOpen h) s)) =
       Call_onopen h
       :: map send_of (cachedUpdatesToSend (exec mid (after (SetOnOpen h) s)))) /\
    (hasConnBeenClosed s = false ->
     existsb is_WsClose mid = false -> existsb is_SetOnClose mid = false ->
     emitted (SetOnClose h) s = [] /\
     existsb is_close_callback (trace mid (after (SetOnClose h) s)) = false /\
     emitted WsClose (exec mid (after (SetOnClose h) s)) = [Call_onclose h]).
Proof.
  intros u pre h mid s.
  assert (I : Inv s) by apply Inv_exec, Inv_init.
  pose proof (Inv_step (SetOnOpen h) s I) as Io.
  pose proof (Inv_step (SetOnClose h) s I) as Ic.
  repeat split.
  - now rewrite (result_summary _ s I).
  - rewrite (emitted_summary _ s I). simpl. now rewrite H.
  - now apply open_quiet_run.
  - now rewrite (result_summary _ s I).
  - rewrite (emitted_summary _ s I). simpl. now rewrite H.
  - now apply close_quiet_run.
  - rewrite (emitted_summary _ s I). simpl. now rewrite H.
  - now apply open_quiet_run.
  - rewrite emitted_summary by now apply Inv_exec.
    simpl. rewrite (onopen_exec mid _ Io), last_onopen_unchanged by assumption.
    rewrite (onopen_after _ s I). reflexivity.
  - rewrite (emitted_summary _ s I). simpl. now rewrite H.
  - now apply close_quiet_run.
  - rewrite emitted_summary by now apply Inv_exec.
    simpl. rewrite (onclose_exec mid _ Ic), last_onclose_unchanged by assumption.
    rewrite (onclose_after _ s I). reflexivity.
Qed.

Lemma open_close_catch_up_witness :
  (emitted (SetOnOpen 5) (exec [WsOpen] init) = [Call_onopen 5] /\
   existsb is_open_callback
           (trace [Create [("fieldOne", JStr "x")]]
                  (after (SetOnOpen 5) (exec [WsOpen] init))) = false) /\
  (emitted (SetOnClose 6) (exec [WsOpen; WsClose] init) = [Call_onclose 6] /\
   existsb is_close_callback
           (trace [Create [("fieldOne", JStr "x")]]
                  (after (SetOnClose 6) (exec [WsOpen; WsClose] init))) = false) /\
  (emitted (SetOnOpen 5) (exec [] init) = [] /\
   emitted WsOpen (exec [Create [("fieldOne", JStr "x")]]
                        (after (SetOnOpen 5) (exec [] init))) =
     [Call_onopen 5; send_of (craft [("fieldOne", JStr "x")] CREATE)]) /\
  (emitted (SetOnClose 6) (exec [WsOpen] init) = [] /\
   emitted WsClose (exec [] (after (SetOnClose 6) (exec [WsOpen] init))) =
     [Call_onclose 6]).
Proof.
  split; [|split; [|split]].
  - destruct (open_close_catch_up "ws://localhost:8080/livegollection"
                [WsOpen] 5 [Create [("fieldOne", JStr "x")]])
      as (H & _).
    destruct (H eq_refl eq_refl eq_refl) as (_ & E & Q). split; [exact E | exact Q].
  - destruct (open_close_catch_up "ws://localhost:8080/livegollection"
                [WsOpen; WsClose] 6 [Create [("fieldOne", JStr "x")]])
      as (_ & H & _).
    destruct (H eq_refl eq_refl eq_refl) as (_ & E & Q). split; [exact E | exact Q].
  - destruct (open_close_catch_up "ws://localhost:8080/livegollection"
                [] 5 [Create [("fieldOne", JStr "x")]])
      as (_ & _ & H & _).
    destruct (H eq_refl eq_refl eq_refl) as (E & _ & F). split; [exact E | exact F].
  - destruct (open_close_catch_up "ws://localhost:8080/livegollection"
                [WsOpen] 6 [])
      as (_ & _ & _ & H).
    destruct (H eq_refl eq_refl eq_refl) as (E & _ & F). split; [exact E | exact F].
Defined.

(** ** Setting a handler again *)





(* ===================================================================== *)
(** * The codec *)
(* ===================================================================== *)

(** ** Validation of incoming records *)

Lemma presence_of_spec o : spec_accepts o = true -> presence_accepts o = true.
Proof.
  unfold spec_accepts, presence_accepts.
  destruct (lookup "method" o) as [[]|]; try discriminate.
  destruct (lookup "id" o) as [[]|]; try discriminate.
  auto.
Qed.

Lemma simple_onmessage_rejected o s :
  spec_accepts o = false ->
  Simple.ws_onmessage (Json (JObj o)) s = (Normal tt, s, []).
Proof.
  intros H. unfold Simple.ws_onmessage.
  cbv beta iota delta [bind lift ret JSON_parse].
  now rewrite simple_isUpdateMessage_obj, H.
Qed.

Lemma simple_onmessage_accepted o s :
  spec_accepts o = true ->
  exists e, Simple.ws_onmessage (Json (JObj o)) s = (Normal tt, s, [e]).
Proof.
  intros H. unfold Simple.ws_onmessage.
  cbv beta iota delta [bind lift ret JSON_parse].
  rewrite simple_isUpdateMessage_obj, H.
  unfold spec_accepts, is_method_string in H.
  unfold js_get, prop, key, createMethodString, updateMethodString,
    deleteMethodString, method_string, strict_eq_str.
  destruct (lookup "method" o) as [[]|]; try discriminate.
  destruct (lookup "id" o) as [[]|]; try discriminate.
  destruct (lookup "item" o); try discriminate.
  cbv beta iota delta [get emit].
  destruct (String.eqb s0 "CREATE"); [eexists; reflexivity|].
  destruct (String.eqb s0 "UPDATE"); [eexists; reflexivity|].
  destruct (String.eqb s0 "DELETE"); [eexists; reflexivity|discriminate].
Qed.

(** C4, as stated, fails on the caching version: a record whose [id] is a
    number is accepted there, cached while the handlers are missing, and
    dispatched once they are set. *)
Lemma validation_predicate_counterexample :
  spec_accepts numeric_id_message = false /\
  Strict.isUpdateMessage (JObj numeric_id_message) = Normal true /\
  cachedReceivedUpdates
    (after (WsMessage (Json (JObj numeric_id_message))) init)
    = [JObj numeric_id_message] /\
  emitted (WsMessage (Json (JObj numeric_id_message)))
          (exec [SetOnCreate 1; SetOnUpdate 2; SetOnDelete 3] init)
    = [Call_oncreate 1 (JObj [("v", JNum 1)])].
Proof. repeat split. Qed.

(** C4, amended: in [src/index.ts] a parsed record is accepted exactly when
    its [method] is one of the three strings, it has an [id] key whose
    value is a string, and it has an [item] key; in the caching version
    the value under [id] may be of any type.  In both, a rejected record
    calls nothing and changes nothing, and an accepted one is routed to
    one callback or (caching version, handlers missing) appended to the
    cache.  So a record without [method], with method ["PATCH"], without
    [id] or without [item] is rejected by both, and one whose [id] is not
    a string is rejected by [src/index.ts] only. *)
Theorem validation_predicate :
  (forall o, Simple.isUpdateMessage (JObj o) = Normal (spec_accepts o)) /\
  (forall o, Strict.isUpdateMessage (JObj o) = Normal (presence_accepts o)) /\
  (forall o s,
      spec_accepts o = false ->
      Simple.ws_onmessage (Json (JObj o)) s = (Normal tt, s, [])) /\
  (forall o s,
      spec_accepts o = true ->
      exists e, Simple.ws_onmessage (Json (JObj o)) s = (Normal tt, s, [e])) /\
  (forall o s,
      presence_accepts o = false ->
      step (WsMessage (Json (JObj o))) s = (Normal tt, s, [])) /\
  (forall u ops o,
      let s := exec ops (new_LiveGollection u) in
      presence_accepts o = true ->
      result (WsMessage (Json (JObj o))) s = Normal tt /\
      if handlers_ready s
      then after (WsMessage (Json (JObj o))) s = s /\
           List.length (emitted (WsMessage (Json (JObj o))) s) = 1 /\
           forallb is_mutation_callback (emitted (WsMessage (Json (JObj o))) s) = true
      else after (WsMessage (Json (JObj o))) s
             = with_cachedReceivedUpdates (cachedReceivedUpdates s ++ [JObj o]) s /\
           emitted (WsMessage (Json (JObj o))) s = []) /\
  (forall o,
      lookup "method" o = None \/ lookup "method" o = Some (JStr "PATCH") \/
      lookup "id" o = None \/ lookup "item" o = None ->
      presence_accepts o = false /\ spec_accepts o = false) /\
  (forall o v,
      lookup "id" o = Some v -> typeof v <> "string" -> spec_accepts o = false).
Proof.
  split; [exact simple_isUpdateMessage_obj|].
  split; [exact strict_isUpdateMessage_obj|].
  split; [exact simple_onmessage_rejected|].
  split; [exact simple_onmessage_accepted|].
  split; [|split; [|split]].
  - intros o s H. simpl. rewrite ws_onmessage_rejected.
    + simpl. now rewrite strict_isUpdateMessage_obj.
    + unfold accepted. simpl. now rewrite strict_isUpdateMessage_obj, H.
  - intros u ops o s H.
    assert (I : Inv s) by apply Inv_exec, Inv_init.
    assert (A : accepted (Json (JObj o)) = true).
    { unfold accepted. simpl. now rewrite strict_isUpdateMessage_obj, H. }
    unfold result, after, emitted. simpl step.
    destruct (handlers_ready s) eqn:R.
    + destruct (ready_handlers s I R) as (hc & hu & hd & Hc & Hu & Hd).
      rewrite (ws_onmessage_dispatched _ s hc hu hd A R Hc Hu Hd).
      cbn [fst snd]. repeat split.
      * now apply dispatch_accepted.
      * apply dispatch_is_mutation_callback.
    + rewrite (ws_onmessage_cached _ s A R). repeat split.
  - intros o H. unfold presence_accepts, spec_accepts.
    destruct H as [H|[H|[H|H]]]; rewrite H.
    + split; reflexivity.
    + split; destruct (lookup "id" o) as [[]|], (lookup "item" o); reflexivity.
    + destruct (lookup "method" o) as [[]|]; split; reflexivity.
    + destruct (lookup "method" o) as [[]|], (lookup "id" o) as [[]|];
        split; reflexivity.
  - intros o v H T. unfold spec_accepts. rewrite H.
    destruct (lookup "method" o) as [[]|]; try reflexivity.
    destruct v; try reflexivity. now elim T.
Qed.

Lemma validation_predicate_witness :
  Simple.ws_onmessage (Json (JObj patch_message)) (Simple.new_LiveGollection "ws://h")
    = (Normal tt, Simple.new_LiveGollection "ws://h", []) /\
  (exists e,
      Simple.ws_onmessage (Json sample_update) (Simple.new_LiveGollection "ws://h")
      = (Normal tt, Simple.new_LiveGollection "ws://h", [e])) /\
  step (WsMessage (Json (JObj patch_message))) init = (Normal tt, init, []) /\
  cachedReceivedUpdates (after (WsMessage (Json sample_update)) init)
    = [sample_update] /\
  spec_accepts [("id", JStr "42"); ("item", JObj [])] = false /\
  spec_accepts numeric_id_message = false.
Proof.
  destruct validation_predicate as (_ & _ & SR & SA & TR & TA & P & N).
  split; [apply SR; reflexivity|].
  split; [apply (SA (own_props sample_update)); reflexivity|].
  split; [apply TR; reflexivity|].
  split.
  - pose proof (TA "ws://localhost:8080/livegollection" [] (own_props sample_update)
                   eq_refl) as (_ & C).
    change (handlers_ready (exec [] (new_LiveGollection "ws://localhost:8080/livegollection")))
      with false in C.
    cbv iota in C. destruct C as [C _].
    exact (f_equal cachedReceivedUpdates C).
  - split.
    + apply (P [("id", JStr "42"); ("item", JObj [])]). left. reflexivity.
    + apply (N numeric_id_message (JNum 42)); [reflexivity | discriminate].
Defined.

(** ** Encoding of outgoing messages *)

Lemma craft_same item m :
  stringified (Simple.craftUpdateMessage m item) = Strict.craft item m.
Proof. reflexivity. Qed.




(** ** Payloads that are not update messages *)






(* ===================================================================== *)
(** * Further facts and sample runs *)
(* ===================================================================== *)

(** In a run of a fresh instance no handler field is called while it is
    still [undefined]: the only steps that throw are messages that fail
    [JSON.parse] or [isUpdateMessage]. *)
Lemma handlers_never_undefined u pre o :
  (forall d, o = WsMessage d -> accepted d = true) ->
  result o (exec pre (new_LiveGollection u)) = Normal tt.
Proof.
  intros A.
  assert (I : Inv (exec pre (new_LiveGollection u))) by apply Inv_exec, Inv_init.
  rewrite (result_summary o _ I).
  destruct o as [|d| |i|i|i|h|h|h|h|h]; unfold summary, send_or_enqueue;
    try reflexivity.
  - specialize (A d eq_refl). apply accepted_shape in A as (o & -> & Hp).
    rewrite strict_isUpdateMessage_obj, Hp.
    now destruct (handlers_ready _).
  - now destruct (hasConnBeenOpened _).
  - now destruct (hasConnBeenOpened _).
  - now destruct (hasConnBeenOpened _).
  - now destruct (registers_last_missing _ _).
  - now destruct (registers_last_missing _ _).
  - now destruct (registers_last_missing _ _).
Qed.

(** [create({fieldOne: "x"})] before the open event: the frame sent on open
    has no [id] key. *)
Example create_then_open :
  trace [Create [("fieldOne", JStr "x")]; WsOpen] init =
  [Ws_send (JSON_stringify
              (JObj [("method", JStr "CREATE");
                     ("item", JObj [("fieldOne", JStr "x")])]))].
Proof. reflexivity. Qed.

(** An UPDATE arrives before any handler is set; the three handlers are
    then set in the order create, update, delete: [onupdate] is called
    once, by the third assignment. *)
Example update_before_handlers :
  let ops := [WsMessage (Json sample_update); SetOnCreate 1; SetOnUpdate 2] in
  trace ops init = [] /\
  emitted (SetOnDelete 3) (exec ops init) =
    [Call_onupdate 2 (JObj [("id", JStr "42"); ("v", JNum 1)])] /\
  trace [SetOnCreate 4; SetOnUpdate 5; SetOnDelete 6]
        (exec (ops ++ [SetOnDelete 3]) init) = [].
Proof. repeat split. Qed.

(** The counters of the lifecycle are not trivially zero. *)
Example lifecycle_counts :
  transitions not_yet_open open [Create []; WsOpen; WsClose] init = 1 /\
  transitions open closed [Create []; WsOpen; WsClose] init = 1 /\
  transitions not_yet_open closed [Create []; WsClose] init = 1 /\
  flips isOnCreateSet [SetOnCreate 1; SetOnCreate 2] init = 1 /\
  drains (sample_run ++ [SetOnDelete 3; SetOnDelete 4]) init = 1.
Proof. repeat split. Qed.

(** A call made from a closed connection that was once open is handed to
    the websocket; one made when it never opened is queued. *)
Example send_after_close :
  trace [WsOpen; WsClose; Delete [("id", JStr "42")]] init =
    [send_of (craft [("id", JStr "42")] DELETE)] /\
  trace [WsClose; Delete [("id", JStr "42")]] init = [] /\
  cachedUpdatesToSend (exec [WsClose; Delete [("id", JStr "42")]] init) =
    [craft [("id", JStr "42")] DELETE].
Proof. repeat split. Qed.

(* ===================================================================== *)
(** * Whole runs of the caching version *)
(* ===================================================================== *)

Import Observe.


(** ** Nothing crafted is lost, repeated or reordered *)








(** ** Nothing received is lost, repeated or reordered *)










(** ** What a run throws *)

Lemma thrown_app ops1 ops2 s :
  thrown (ops1 ++ ops2) s = thrown ops1 s ++ thrown ops2 (exec ops1 s).
Proof.
  revert s. induction ops1 as [|o ops1 IH]; simpl; intros s; [reflexivity|].
  destruct (result o s); simpl; now rewrite IH.
Qed.




(** ** The fields after a run *)

Lemma handlers_after o s :
  Inv s ->
  _oncreate (after o s) = last_oncreate [o] (_oncreate s) /\
  _onupdate (after o s) = last_onupdate [o] (_onupdate s) /\
  _ondelete (after o s) = last_ondelete [o] (_ondelete s).
Proof.
  intros I. rewrite (after_summary o s I). clear I.
  summary_cases o s; repeat split.
Qed.

Lemma last_oncreate_cons o ops acc :
  last_oncreate (o :: ops) acc = last_oncreate ops (last_oncreate [o] acc).
Proof. destruct o; reflexivity. Qed.

Lemma last_onupdate_cons o ops acc :
  last_onupdate (o :: ops) acc = last_onupdate ops (last_onupdate [o] acc).
Proof. destruct o; reflexivity. Qed.

Lemma last_ondelete_cons o ops acc :
  last_ondelete (o :: ops) acc = last_ondelete ops (last_ondelete [o] acc).
Proof. destruct o; reflexivity. Qed.

Lemma handlers_exec ops s :
  Inv s ->
  _oncreate (exec ops s) = last_oncreate ops (_oncreate s) /\
  _onupdate (exec ops s) = last_onupdate ops (_onupdate s) /\
  _ondelete (exec ops s) = last_ondelete ops (_ondelete s).
Proof.
  revert s. induction ops as [|o ops IH]; simpl exec; intros s I.
  - repeat split.
  - destruct (IH _ (Inv_step o s I)) as (Hc & Hu & Hd).
    destruct (handlers_after o s I) as (Ec & Eu & Ed).
    rewrite Hc, Hu, Hd, Ec, Eu, Ed.
    rewrite (last_oncreate_cons o ops), (last_onupdate_cons o ops),
      (last_ondelete_cons o ops).
    repeat split.
Qed.




(** ** Replacing a handler *)

Lemma last_oncreate_none ops acc :
  existsb is_SetOnCreate ops = false -> last_oncreate ops acc = acc.
Proof.
  revert acc. induction ops as [|o ops IH]; simpl; intros acc H; [reflexivity|].
  apply orb_false_elim in H as [Ho H]. destruct o; try discriminate; auto.
Qed.

Lemma last_onupdate_none ops acc :
  existsb is_SetOnUpdate ops = false -> last_onupdate ops acc = acc.
Proof.
  revert acc. induction ops as [|o ops IH]; simpl; intros acc H; [reflexivity|].
  apply orb_false_elim in H as [Ho H]. destruct o; try discriminate; auto.
Qed.

Lemma last_ondelete_none ops acc :
  existsb is_SetOnDelete ops = false -> last_ondelete ops acc = acc.
Proof.
  revert acc. induction ops as [|o ops IH]; simpl; intros acc H; [reflexivity|].
  apply orb_false_elim in H as [Ho H]. destruct o; try discriminate; auto.
Qed.

Lemma ready_of_last u ops hc hu hd :
  last_oncreate ops None = Some hc ->
  last_onupdate ops None = Some hu ->
  last_ondelete ops None = Some hd ->
  handlers_ready (exec ops (new_LiveGollection u)) = true.
Proof.
  intros Hc Hu Hd. unfold handlers_ready.
  rewrite exec_isOnCreateSet, exec_isOnUpdateSet, exec_isOnDeleteSet
    by apply Inv_init.
  simpl.
  destruct (existsb is_SetOnCreate ops) eqn:Ec;
    [|rewrite last_oncreate_none in Hc by assumption; discriminate].
  destruct (existsb is_SetOnUpdate ops) eqn:Eu;
    [|rewrite last_onupdate_none in Hu by assumption; discriminate].
  destruct (existsb is_SetOnDelete ops) eqn:Ed;
    [|rewrite last_ondelete_none in Hd by assumption; discriminate].
  reflexivity.
Qed.

Lemma message_to_latest u ops v hc hu hd :
  last_oncreate ops None = Some hc ->
  last_onupdate ops None = Some hu ->
  last_ondelete ops None = Some hd ->
  accepted (Json v) = true ->
  ws_onmessage (Json v) (exec ops (new_LiveGollection u))
  = (Normal tt, exec ops (new_LiveGollection u), dispatch hc hu hd v).
Proof.
  intros Hc Hu Hd A.
  pose proof (ready_of_last u ops hc hu hd Hc Hu Hd) as R.
  destruct (handlers_exec ops _ (Inv_init u)) as (Ec & Eu & Ed).
  simpl in Ec, Eu, Ed. rewrite Hc in Ec. rewrite Hu in Eu. rewrite Hd in Ed.
  now apply ws_onmessage_dispatched.
Qed.

(** X5: once the three handlers have been set, an accepted message is
    handed at once to the handler most recently assigned for its method,
    and to nothing else; a handler that has been replaced is not called
    any more.  The instance is left as it was. *)
Theorem dispatch_to_latest_handlers :
  forall (u : string) (ops : list op) (v : jsval) (hc hu hd : handler),
    let s := exec ops (new_LiveGollection u) in
    last_oncreate ops None = Some hc ->
    last_onupdate ops None = Some hu ->
    last_ondelete ops None = Some hd ->
    accepted (Json v) = true ->
    step (WsMessage (Json v)) s = (Normal tt, s, dispatch hc hu hd v) /\
    List.length (dispatch hc hu hd v) = 1.
Proof.
  intros u ops v hc hu hd s Hc Hu Hd A.
  split; [|now apply dispatch_accepted].
  simpl step. now apply message_to_latest.
Qed.

Lemma dispatch_to_latest_handlers_witness :
  last_oncreate [SetOnCreate 1; SetOnUpdate 2; SetOnDelete 3; SetOnUpdate 7] None
    = Some 1 /\
  step (WsMessage (Json sample_update))
       (exec [SetOnCreate 1; SetOnUpdate 2; SetOnDelete 3; SetOnUpdate 7] init)
  = (Normal tt,
     exec [SetOnCreate 1; SetOnUpdate 2; SetOnDelete 3; SetOnUpdate 7] init,
     [Call_onupdate 7 (JObj [("id", JStr "42"); ("v", JNum 1)])]).
Proof.
  split; [reflexivity|].
  exact (proj1 (dispatch_to_latest_handlers
                  "ws://localhost:8080/livegollection"
                  [SetOnCreate 1; SetOnUpdate 2; SetOnDelete 3; SetOnUpdate 7]
                  sample_update 1 7 3 eq_refl eq_refl eq_refl eq_refl)).
Defined.

(** ** The close event changes nothing else *)

Lemma Inv_with_closed b s : Inv s -> Inv (with_hasConnBeenClosed b s).
Proof.
  intros I. destruct I. split_state s.
  constructor; unfold handlers_ready in *; simpl in *; auto.
Qed.

(** X6: [hasConnBeenClosed] is read by the setter of [onclose] only.  On
    an instance reached by a run of a fresh one, every step other than the
    close event and that setter returns the same completion, makes the
    same calls and leaves the same fields whether or not the connection
    has been closed: after a close, [create]/[update]/[delete] still queue
    (never opened) or call [ws.send] (opened), and messages are still
    cached or dispatched. *)
Theorem close_changes_nothing_else :
  forall (u : string) (ops : list op) (o : op) (b : bool),
    let s := exec ops (new_LiveGollection u) in
    touches_close o = false ->
    result o (with_hasConnBeenClosed b s) = result o s /\
    emitted o (with_hasConnBeenClosed b s) = emitted o s /\
    after o (with_hasConnBeenClosed b s) = with_hasConnBeenClosed b (after o s).
Proof.
  intros u ops o b s T.
  assert (I : Inv s) by apply Inv_exec, Inv_init.
  pose proof (Inv_with_closed b s I) as I'.
  rewrite !result_summary, !emitted_summary, !after_summary by assumption.
  clear I I'. generalize s as t. clear s. intros s.
  destruct o as [|[|v]| |i|i|i|h|h|h|h|h]; try discriminate;
    unfold summary, send_or_enqueue, enqueue.
  - split_state s. repeat split.
  - repeat split.
  - assert (R : handlers_ready (with_hasConnBeenClosed b s) = handlers_ready s)
      by now destruct s.
    rewrite R.
    destruct (Strict.isUpdateMessage v) as [[]|];
      try destruct (handlers_ready s); split_state s; repeat split.
  - split_state s. destruct op0; repeat split.
  - split_state s. destruct op0; repeat split.
  - split_state s. destruct op0; repeat split.
  - assert (R : registers_last_missing (SetOnCreate h) (with_hasConnBeenClosed b s)
                = registers_last_missing (SetOnCreate h) s) by now destruct s.
    rewrite R. destruct (registers_last_missing (SetOnCreate h) s);
      split_state s; repeat split.
  - assert (R : registers_last_missing (SetOnUpdate h) (with_hasConnBeenClosed b s)
                = registers_last_missing (SetOnUpdate h) s) by now destruct s.
    rewrite R. destruct (registers_last_missing (SetOnUpdate h) s);
      split_state s; repeat split.
  - assert (R : registers_last_missing (SetOnDelete h) (with_hasConnBeenClosed b s)
                = registers_last_missing (SetOnDelete h) s) by now destruct s.
    rewrite R. destruct (registers_last_missing (SetOnDelete h) s);
      split_state s; repeat split.
  - split_state s. destruct op0; repeat split.
Qed.

Lemma close_changes_nothing_else_witness :
  touches_close (Delete [("id", JStr "42")]) = false /\
  emitted (Delete [("id", JStr "42")])
          (with_hasConnBeenClosed true (exec [WsOpen] init))
  = [send_of (craft [("id", JStr "42")] DELETE)].
Proof.
  split; [reflexivity|].
  destruct (close_changes_nothing_else "ws://localhost:8080/livegollection"
              [WsOpen] (Delete [("id", JStr "42")]) true eq_refl)
    as (_ & E & _).
  exact E.
Defined.

(* ===================================================================== *)
(** * The codec, end to end *)
(* ===================================================================== *)

Lemma is_method_string_method m : is_method_string (method_string m) = true.
Proof. destruct m; reflexivity. Qed.

Lemma craft_fields item m :
  own_props (craft item m)
  = [("method", JStr (method_string m)); ("item", JObj item)]
    ++ (if not_undefined (prop "id" item) then [("id", prop "id" item)] else []).
Proof.
  unfold craft, own_props. destruct (not_undefined (prop "id" item)); reflexivity.
Qed.

Lemma craft_is_object item m : craft item m = JObj (own_props (craft item m)).
Proof. reflexivity. Qed.

Lemma strict_validity_of_craft item m :
  Strict.isUpdateMessage (craft item m) = Normal (not_undefined (prop "id" item)).
Proof.
  rewrite craft_is_object, strict_isUpdateMessage_obj, craft_fields.
  unfold presence_accepts.
  destruct m; destruct (not_undefined (prop "id" item)); reflexivity.
Qed.

Lemma simple_validity_of_craft item m :
  Simple.isUpdateMessage (stringified (Simple.craftUpdateMessage m item))
  = Normal (String.eqb (typeof (prop "id" item)) "string").
Proof.
  rewrite craft_same, craft_is_object, simple_isUpdateMessage_obj, craft_fields.
  unfold spec_accepts.
  destruct m; destruct (prop "id" item); reflexivity.
Qed.

(** X7: what each validator says of a message built by the class itself.
    The caching version accepts it exactly when the item's [id] is not
    [undefined]; [src/index.ts] accepts it exactly when the item's [id] is
    a string.  So the message crafted for an item without identifier (the
    create path) does not pass the client's own validation. *)
Theorem crafted_message_validity :
  forall (item : object) (m : MethodString),
    Strict.isUpdateMessage (craft item m)
    = Normal (not_undefined (prop "id" item)) /\
    Simple.isUpdateMessage (stringified (Simple.craftUpdateMessage m item))
    = Normal (String.eqb (typeof (prop "id" item)) "string").
Proof.
  intros item m. split.
  - apply strict_validity_of_craft.
  - apply simple_validity_of_craft.
Qed.

Lemma dispatch_craft hc hu hd item m :
  dispatch hc hu hd (craft item m) = [callback_for m hc hu hd (JObj item)].
Proof.
  rewrite craft_is_object. unfold dispatch. rewrite craft_fields.
  unfold prop.
  destruct m; destruct (not_undefined _); reflexivity.
Qed.

(** X8: a message equal to the one the class crafts for [item] and [m],
    arriving once the three handlers are set: when the item's [id] is not
    [undefined], the latest handler of method [m] is called once with the
    item itself, and nothing else happens; when it is [undefined], the
    message is dropped and nothing is called. *)
Theorem echo_of_crafted_message :
  forall (u : string) (ops : list op) (item : object) (m : MethodString)
         (hc hu hd : handler),
    let s := exec ops (new_LiveGollection u) in
    last_oncreate ops None = Some hc ->
    last_onupdate ops None = Some hu ->
    last_ondelete ops None = Some hd ->
    step (WsMessage (Json (craft item m))) s
    = (Normal tt, s,
       if not_undefined (prop "id" item)
       then [callback_for m hc hu hd (JObj item)]
       else []).
Proof.
  intros u ops item m hc hu hd s Hc Hu Hd.
  pose proof (strict_validity_of_craft item m) as E.
  assert (A : accepted (Json (craft item m)) = not_undefined (prop "id" item)).
  { rewrite accepted_Json, E. now destruct (not_undefined (prop "id" item)). }
  destruct (not_undefined (prop "id" item)).
  - rewrite <- dispatch_craft. simpl step.
    now apply message_to_latest.
  - simpl step. rewrite (ws_onmessage_rejected _ s A).
    cbn [JSON_parse cbind]. now rewrite E.
Qed.

Lemma echo_of_crafted_message_witness :
  last_oncreate [SetOnCreate 1; SetOnUpdate 2; SetOnDelete 3] None = Some 1 /\
  step (WsMessage (Json (craft [("id", JStr "42"); ("v", JNum 2)] UPDATE)))
       (exec [SetOnCreate 1; SetOnUpdate 2; SetOnDelete 3] init)
  = (Normal tt, exec [SetOnCreate 1; SetOnUpdate 2; SetOnDelete 3] init,
     [Call_onupdate 2 (JObj [("id", JStr "42"); ("v", JNum 2)])]) /\
  step (WsMessage (Json (craft [("fieldOne", JStr "x")] CREATE)))
       (exec [SetOnCreate 1; SetOnUpdate 2; SetOnDelete 3] init)
  = (Normal tt, exec [SetOnCreate 1; SetOnUpdate 2; SetOnDelete 3] init, []).
Proof.
  split; [reflexivity|]. split.
  - exact (echo_of_crafted_message "ws://localhost:8080/livegollection"
             [SetOnCreate 1; SetOnUpdate 2; SetOnDelete 3]
             [("id", JStr "42"); ("v", JNum 2)] UPDATE 1 2 3
             eq_refl eq_refl eq_refl).
  - exact (echo_of_crafted_message "ws://localhost:8080/livegollection"
             [SetOnCreate 1; SetOnUpdate 2; SetOnDelete 3]
             [("fieldOne", JStr "x")] CREATE 1 2 3
             eq_refl eq_refl eq_refl).
Defined.

(* ===================================================================== *)
(** * The version of [src/index.ts], and the two versions compared *)
(* ===================================================================== *)

Import Versions.

Lemma spec_presence o :
  spec_accepts o
  = presence_accepts o && String.eqb (typeof (prop "id" o)) "string".
Proof.
  unfold spec_accepts, presence_accepts, prop.
  destruct (lookup "method" o) as [[]|]; try reflexivity.
  destruct (lookup "id" o) as [i|]; [|reflexivity].
  destruct (lookup "item" o).
  - destruct i; simpl; rewrite ?andb_true_r, ?andb_false_r; reflexivity.
  - destruct i; reflexivity.
Qed.

Lemma simple_of_strict v :
  Simple.isUpdateMessage v =
  match Strict.isUpdateMessage v with
  | Normal b => Normal (b && has_string_id v)
  | Throw e => Throw e
  end.
Proof.
  destruct v; try reflexivity.
  rewrite simple_isUpdateMessage_obj, strict_isUpdateMessage_obj.
  unfold has_string_id. simpl own_props. now rewrite spec_presence.
Qed.

(** X9: the validator of [src/index.ts] is the validator of the caching
    version followed by the test [typeof updMess.id == "string"]: on every
    value the two throw alike (a [TypeError] on what is not an object),
    and [src/index.ts] accepts exactly the values that the caching version
    accepts and whose [id] is a string. *)
Theorem validators_differ_by_typeof :
  forall v : jsval,
    Simple.isUpdateMessage v =
    match Strict.isUpdateMessage v with
    | Normal b => Normal (b && has_string_id v)
    | Throw e => Throw e
    end /\
    Strict.isUpdateMessage v =
    (if is_object v then Normal (presence_accepts (own_props v))
     else Throw TypeError).
Proof.
  intros v. split; [apply simple_of_strict|].
  destruct v; try reflexivity. apply strict_isUpdateMessage_obj.
Qed.

(** ** Runs of [src/index.ts] *)

Lemma simple_onmessage_eq d s :
  Simple.ws_onmessage d s =
  match cbind (JSON_parse d) Simple.isUpdateMessage with
  | Throw e => (Throw e, s, [])
  | Normal false => (Normal tt, s, [])
  | Normal true =>
      match d with
      | Json (JObj o) =>
          (Normal tt, s,
           match routing (JObj o) with
           | [(CREATE, it)] => [Simple.Call_oncreate (Simple.oncreate s) it]
           | [(UPDATE, it)] => [Simple.Call_onupdate (Simple.onupdate s) it]
           | [(DELETE, it)] => [Simple.Call_ondelete (Simple.ondelete s) it]
           | _ => []
           end)
      | _ => (Normal tt, s, [])
      end
  end.
Proof.
  destruct d as [|v]; [reflexivity|].
  destruct v; try reflexivity.
  unfold Simple.ws_onmessage.
  cbv beta iota delta [bind lift ret JSON_parse cbind].
  rewrite simple_isUpdateMessage_obj.
  destruct (spec_accepts props) eqn:A; [|reflexivity].
  unfold spec_accepts, is_method_string in A.
  unfold routing, js_get, prop, key, createMethodString, updateMethodString,
    deleteMethodString, method_string, strict_eq_str.
  destruct (lookup "method" props) as [[]|]; try discriminate.
  cbv beta iota delta [get emit].
  destruct (String.eqb s0 "CREATE"); [reflexivity|].
  destruct (String.eqb s0 "UPDATE"); [reflexivity|].
  destruct (String.eqb s0 "DELETE"); [reflexivity|].
  destruct (lookup "id" props) as [[]|]; try discriminate;
    destruct (lookup "item" props); discriminate.
Qed.

Lemma simple_after_message d s : SimpleRun.after (SimpleRun.WsMessage d) s = s.
Proof.
  unfold SimpleRun.after. simpl SimpleRun.step. rewrite simple_onmessage_eq.
  destruct (cbind (JSON_parse d) Simple.isUpdateMessage) as [[]|];
    try reflexivity.
  destruct d as [|[]]; reflexivity.
Qed.

Lemma simple_deliveries_message d s :
  SimpleRun.deliveries (SimpleRun.emitted (SimpleRun.WsMessage d) s)
  = flat_map routing (SimpleRun.valid_messages [SimpleRun.WsMessage d]).
Proof.
  unfold SimpleRun.emitted. simpl SimpleRun.step. rewrite simple_onmessage_eq.
  destruct d as [|v]; [reflexivity|]. simpl.
  destruct (Simple.isUpdateMessage v) as [[]|] eqn:V; try reflexivity.
  destruct v; try discriminate. simpl. rewrite app_nil_r.
  rewrite simple_isUpdateMessage_obj in V. injection V as V.
  unfold spec_accepts, is_method_string in V. unfold routing.
  destruct (lookup "method" props) as [[]|]; try discriminate.
  destruct (String.eqb s0 "CREATE"); [reflexivity|].
  destruct (String.eqb s0 "UPDATE"); [reflexivity|].
  destruct (String.eqb s0 "DELETE"); [reflexivity|].
  destruct (lookup "id" props) as [[]|]; try discriminate;
    destruct (lookup "item" props); discriminate.
Qed.

Lemma simple_sent_message d s :
  SimpleRun.sent (SimpleRun.emitted (SimpleRun.WsMessage d) s) = [].
Proof.
  unfold SimpleRun.emitted. simpl SimpleRun.step. rewrite simple_onmessage_eq.
  destruct (cbind (JSON_parse d) Simple.isUpdateMessage) as [[]|];
    try reflexivity.
  destruct d as [|[]]; try reflexivity.
  destruct (routing (JObj props)) as [|[[] it] [|]]; reflexivity.
Qed.

Lemma simple_valid_messages_cons o ops :
  SimpleRun.valid_messages (o :: ops)
  = SimpleRun.valid_messages [o] ++ SimpleRun.valid_messages ops.
Proof.
  destruct o as [|[|v]| | | | | | | | |]; simpl; try reflexivity.
  destruct (Simple.isUpdateMessage v) as [[]|]; reflexivity.
Qed.

Lemma simple_run_step o s :
  SimpleRun.sent (SimpleRun.emitted o s) = SimpleRun.outbound [o] /\
  SimpleRun.deliveries (SimpleRun.emitted o s)
  = flat_map routing (SimpleRun.valid_messages [o]).
Proof.
  destruct o as [|d| |i|i|i|h|h|h|h|h];
    try (split; reflexivity).
  split; [apply simple_sent_message | apply simple_deliveries_message].
Qed.

Lemma simple_run ops s :
  SimpleRun.sent (SimpleRun.trace ops s) = SimpleRun.outbound ops /\
  SimpleRun.deliveries (SimpleRun.trace ops s)
  = flat_map routing (SimpleRun.valid_messages ops).
Proof.
  revert s. induction ops as [|o ops IH]; intros s; [split; reflexivity|].
  simpl SimpleRun.trace. destruct (IH (SimpleRun.after o s)) as [S D].
  destruct (simple_run_step o s) as [So Do].
  unfold SimpleRun.sent, SimpleRun.deliveries in *.
  rewrite !flat_map_app, map_app. rewrite S, D, So, Do.
  rewrite (simple_valid_messages_cons o ops), flat_map_app.
  split; [destruct o; reflexivity | reflexivity].
Qed.

(** X10: in [src/index.ts] nothing is queued or cached.  In every run,
    from any instance, the texts handed to [ws.send] are those crafted by
    the [create]/[update]/[delete] calls, one per call, in call order,
    whether or not the websocket has opened; and the calls made to
    [oncreate], [onupdate], [ondelete] (which callback, with which
    argument) are the routing of the accepted messages, one per message,
    in arrival order, whether or not a handler has been assigned. *)
Theorem simple_is_immediate :
  forall (ops : list SimpleRun.op) (s : Simple.LiveGollection),
    SimpleRun.sent (SimpleRun.trace ops s) = SimpleRun.outbound ops /\
    SimpleRun.deliveries (SimpleRun.trace ops s)
    = flat_map routing (SimpleRun.valid_messages ops).
Proof. intros ops s. apply simple_run. Qed.

Lemma simple_callees_message d s :
  Forall (fun f => f = Simple.oncreate s \/ f = Simple.onupdate s
                   \/ f = Simple.ondelete s)
         (SimpleRun.callees (SimpleRun.emitted (SimpleRun.WsMessage d) s)).
Proof.
  unfold SimpleRun.emitted. simpl SimpleRun.step. rewrite simple_onmessage_eq.
  destruct (cbind (JSON_parse d) Simple.isUpdateMessage) as [[]|];
    try constructor.
  destruct d as [|[]]; try constructor.
  destruct (routing (JObj props)) as [|[[] it] [|]]; simpl;
    repeat (apply Forall_cons || apply Forall_nil); auto.
Qed.

Lemma simple_quiet_step o u :
  SimpleRun.is_assignment o = false ->
  SimpleRun.after o (Simple.new_LiveGollection u) = Simple.new_LiveGollection u /\
  Forall (fun f => f = Simple.noop)
         (SimpleRun.callees (SimpleRun.emitted o (Simple.new_LiveGollection u))).
Proof.
  intros A. destruct o as [|d| |i|i|i|h|h|h|h|h]; try discriminate;
    try (split; [reflexivity | repeat constructor]).
  split; [apply simple_after_message|].
  eapply Forall_impl; [|apply simple_callees_message].
  simpl. intros f [H|[H|H]]; exact H.
Qed.

(** X11: in [src/index.ts], as long as the consumer has assigned no
    callback, every call the instance makes (for a message, the open event
    or the close event) goes to the no-op default, so the event is lost to
    the consumer; and the instance stays as the constructor left it. *)
Theorem simple_defaults_swallow :
  forall (u : string) (ops : list SimpleRun.op),
    existsb SimpleRun.is_assignment ops = false ->
    SimpleRun.exec ops (Simple.new_LiveGollection u) = Simple.new_LiveGollection u /\
    Forall (fun f => f = Simple.noop)
           (SimpleRun.callees (SimpleRun.trace ops (Simple.new_LiveGollection u))).
Proof.
  intros u ops. induction ops as [|o ops IH]; intros A.
  - split; [reflexivity | constructor].
  - simpl in A. apply orb_false_elim in A as [Ao A].
    destruct (simple_quiet_step o u Ao) as [E F].
    destruct (IH A) as [E' F'].
    simpl SimpleRun.exec. simpl SimpleRun.trace. rewrite E.
    split; [exact E'|].
    unfold SimpleRun.callees in *. rewrite flat_map_app.
    apply Forall_app. split; assumption.
Qed.

Lemma simple_defaults_swallow_witness :
  existsb SimpleRun.is_assignment
          [SimpleRun.WsOpen; SimpleRun.WsMessage (Json sample_update)] = false /\
  SimpleRun.trace [SimpleRun.WsOpen; SimpleRun.WsMessage (Json sample_update)]
                  (Simple.new_LiveGollection "ws://h")
  = [Simple.Call_onopen Simple.noop;
     Simple.Call_onupdate Simple.noop (JObj [("id", JStr "42"); ("v", JNum 1)])] /\
  Forall (fun f => f = Simple.noop)
         (SimpleRun.callees
            (SimpleRun.trace
               [SimpleRun.WsOpen; SimpleRun.WsMessage (Json sample_update)]
               (Simple.new_LiveGollection "ws://h"))).
Proof.
  split; [reflexivity|]. split; [reflexivity|].
  exact (proj2 (simple_defaults_swallow "ws://h"
                  [SimpleRun.WsOpen; SimpleRun.WsMessage (Json sample_update)]
                  eq_refl)).
Defined.

(** ** The two versions on the same events *)







(* ===================================================================== *)
(** * [onopen] and [onclose] are called once, whichever comes first *)
(* ===================================================================== *)

Lemma filter_none {A} (p : A -> bool) l : existsb p l = false -> filter p l = [].
Proof.
  induction l as [|x l IH]; simpl; intros H; [reflexivity|].
  apply orb_false_elim in H as [Hx H]. rewrite Hx. auto.
Qed.

Lemma filter_open_sends l : filter is_open_callback (map send_of l) = [].
Proof. apply filter_none, existsb_map_send. reflexivity. Qed.

Lemma filter_close_sends l : filter is_close_callback (map send_of l) = [].
Proof. apply filter_none, existsb_map_send. reflexivity. Qed.

Lemma trace_around a o c s :
  trace (a ++ o :: c) s
  = trace a s ++ emitted o (exec a s) ++ trace c (after o (exec a s)).
Proof. now rewrite trace_app. Qed.

(** The open calls of a run with one open event and one assignment of
    [onopen], in either order. *)
Lemma open_calls_event_first u a b c h :
  existsb is_WsOpen a = false -> existsb is_SetOnOpen a = false ->
  existsb is_WsOpen b = false -> existsb is_SetOnOpen b = false ->
  existsb is_WsOpen c = false -> existsb is_SetOnOpen c = false ->
  filter is_open_callback
         (trace (a ++ WsOpen :: b ++ SetOnOpen h :: c) (new_LiveGollection u))
  = [Call_onopen h].
Proof.
  intros Wa Sa Wb Sb Wc Sc.
  pose proof (Inv_init u) as I0.
  set (s0 := new_LiveGollection u) in *.
  set (s1 := exec a s0).
  assert (I1 : Inv s1) by now apply Inv_exec.
  set (s2 := exec b (after WsOpen s1)).
  assert (I2 : Inv s2) by now apply Inv_exec, Inv_step.
  rewrite trace_around, trace_around. fold s1. fold s2.
  rewrite !filter_app.
  rewrite (filter_none _ _ (open_quiet_run a s0 I0 Wa Sa)).
  rewrite (filter_none _ _ (open_quiet_run b _ (Inv_step _ _ I1) Wb Sb)).
  rewrite (filter_none _ _ (open_quiet_run c _ (Inv_step _ _ I2) Wc Sc)).
  rewrite (emitted_summary WsOpen s1 I1), (emitted_summary (SetOnOpen h) s2 I2).
  simpl. rewrite filter_app, filter_open_sends.
  assert (N : _onopen s1 = None).
  { unfold s1. rewrite (onopen_exec a s0 I0). simpl.
    now rewrite last_onopen_unchanged. }
  assert (O : hasConnBeenOpened s2 = true).
  { unfold s2. rewrite exec_hasConnBeenOpened by now apply Inv_step.
    destruct (after_flags WsOpen s1 I1) as (-> & _). simpl.
    now rewrite orb_true_r. }
  now rewrite N, O.
Qed.

Lemma open_calls_setter_first u a b c h :
  existsb is_WsOpen a = false -> existsb is_SetOnOpen a = false ->
  existsb is_WsOpen b = false -> existsb is_SetOnOpen b = false ->
  existsb is_WsOpen c = false -> existsb is_SetOnOpen c = false ->
  filter is_open_callback
         (trace (a ++ SetOnOpen h :: b ++ WsOpen :: c) (new_LiveGollection u))
  = [Call_onopen h].
Proof.
  intros Wa Sa Wb Sb Wc Sc.
  pose proof (Inv_init u) as I0.
  set (s0 := new_LiveGollection u) in *.
  set (s1 := exec a s0).
  assert (I1 : Inv s1) by now apply Inv_exec.
  set (s2 := exec b (after (SetOnOpen h) s1)).
  assert (I2 : Inv s2) by now apply Inv_exec, Inv_step.
  rewrite trace_around, trace_around. fold s1. fold s2.
  rewrite !filter_app.
  rewrite (filter_none _ _ (open_quiet_run a s0 I0 Wa Sa)).
  rewrite (filter_none _ _ (open_quiet_run b _ (Inv_step _ _ I1) Wb Sb)).
  rewrite (filter_none _ _ (open_quiet_run c _ (Inv_step _ _ I2) Wc Sc)).
  rewrite (emitted_summary (SetOnOpen h) s1 I1), (emitted_summary WsOpen s2 I2).
  simpl. rewrite filter_app, filter_open_sends.
  assert (N : hasConnBeenOpened s1 = false).
  { unfold s1. rewrite exec_hasConnBeenOpened by assumption. simpl. exact Wa. }
  assert (O : _onopen s2 = Some h).
  { unfold s2. rewrite onopen_exec by now apply Inv_step.
    rewrite last_onopen_unchanged by assumption.
    now rewrite (onopen_after _ s1 I1). }
  now rewrite N, O.
Qed.

Lemma close_calls_event_first u a b c h :
  existsb is_WsClose a = false -> existsb is_SetOnClose a = false ->
  existsb is_WsClose b = false -> existsb is_SetOnClose b = false ->
  existsb is_WsClose c = false -> existsb is_SetOnClose c = false ->
  filter is_close_callback
         (trace (a ++ WsClose :: b ++ SetOnClose h :: c) (new_LiveGollection u))
  = [Call_onclose h].
Proof.
  intros Wa Sa Wb Sb Wc Sc.
  pose proof (Inv_init u) as I0.
  set (s0 := new_LiveGollection u) in *.
  set (s1 := exec a s0).
  assert (I1 : Inv s1) by now apply Inv_exec.
  set (s2 := exec b (after WsClose s1)).
  assert (I2 : Inv s2) by now apply Inv_exec, Inv_step.
  rewrite trace_around, trace_around. fold s1. fold s2.
  rewrite !filter_app.
  rewrite (filter_none _ _ (close_quiet_run a s0 I0 Wa Sa)).
  rewrite (filter_none _ _ (close_quiet_run b _ (Inv_step _ _ I1) Wb Sb)).
  rewrite (filter_none _ _ (close_quiet_run c _ (Inv_step _ _ I2) Wc Sc)).
  rewrite (emitted_summary WsClose s1 I1), (emitted_summary (SetOnClose h) s2 I2).
  simpl.
  assert (N : _onclose s1 = None).
  { unfold s1. rewrite (onclose_exec a s0 I0). simpl.
    now rewrite last_onclose_unchanged. }
  assert (O : hasConnBeenClosed s2 = true).
  { unfold s2. rewrite exec_hasConnBeenClosed by now apply Inv_step.
    destruct (after_flags WsClose s1 I1) as (_ & -> & _). simpl.
    now rewrite orb_true_r. }
  now rewrite N, O.
Qed.

Lemma close_calls_setter_first u a b c h :
  existsb is_WsClose a = false -> existsb is_SetOnClose a = false ->
  existsb is_WsClose b = false -> existsb is_SetOnClose b = false ->
  existsb is_WsClose c = false -> existsb is_SetOnClose c = false ->
  filter is_close_callback
         (trace (a ++ SetOnClose h :: b ++ WsClose :: c) (new_LiveGollection u))
  = [Call_onclose h].
Proof.
  intros Wa Sa Wb Sb Wc Sc.
  pose proof (Inv_init u) as I0.
  set (s0 := new_LiveGollection u) in *.
  set (s1 := exec a s0).
  assert (I1 : Inv s1) by now apply Inv_exec.
  set (s2 := exec b (after (SetOnClose h) s1)).
  assert (I2 : Inv s2) by now apply Inv_exec, Inv_step.
  rewrite trace_around, trace_around. fold s1. fold s2.
  rewrite !filter_app.
  rewrite (filter_none _ _ (close_quiet_run a s0 I0 Wa Sa)).
  rewrite (filter_none _ _ (close_quiet_run b _ (Inv_step _ _ I1) Wb Sb)).
  rewrite (filter_none _ _ (close_quiet_run c _ (Inv_step _ _ I2) Wc Sc)).
  rewrite (emitted_summary (SetOnClose h) s1 I1), (emitted_summary WsClose s2 I2).
  simpl.
  assert (N : hasConnBeenClosed s1 = false).
  { unfold s1. rewrite exec_hasConnBeenClosed by assumption. simpl. exact Wa. }
  assert (O : _onclose s2 = Some h).
  { unfold s2. rewrite onclose_exec by now apply Inv_step.
    rewrite last_onclose_unchanged by assumption.
    now rewrite (onclose_after _ s1 I1). }
  now rewrite N, O.
Qed.

(** X13: in a run of a fresh instance in which the open event occurs once
    and [onopen] is assigned once, the handler is called exactly once,
    whichever of the two comes first and whatever else happens in between;
    likewise for the close event and [onclose]. *)
Theorem lifecycle_handler_called_once :
  forall (u : string) (a b c : list op) (h : handler),
    (existsb is_WsOpen (a ++ b ++ c) = false ->
     existsb is_SetOnOpen (a ++ b ++ c) = false ->
     filter is_open_callback
            (trace (a ++ WsOpen :: b ++ SetOnOpen h :: c) (new_LiveGollection u))
     = [Call_onopen h] /\
     filter is_open_callback
            (trace (a ++ SetOnOpen h :: b ++ WsOpen :: c) (new_LiveGollection u))
     = [Call_onopen h]) /\
    (existsb is_WsClose (a ++ b ++ c) = false ->
     existsb is_SetOnClose (a ++ b ++ c) = false ->
     filter is_close_callback
            (trace (a ++ WsClose :: b ++ SetOnClose h :: c) (new_LiveGollection u))
     = [Call_onclose h] /\
     filter is_close_callback
            (trace (a ++ SetOnClose h :: b ++ WsClose :: c) (new_LiveGollection u))
     = [Call_onclose h]).
Proof.
  intros u a b c h. split; intros W S;
    rewrite !existsb_app in W, S;
    apply orb_false_elim in W as [Wa W]; apply orb_false_elim in W as [Wb Wc];
    apply orb_false_elim in S as [Sa S]; apply orb_false_elim in S as [Sb Sc].
  - split; [now apply open_calls_event_first | now apply open_calls_setter_first].
  - split; [now apply close_calls_event_first | now apply close_calls_setter_first].
Qed.

Lemma lifecycle_handler_called_once_witness :
  filter is_open_callback
         (trace ([Create []] ++ WsOpen :: [SetOnCreate 1] ++ SetOnOpen 5 :: [WsClose])
                init)
  = [Call_onopen 5] /\
  filter is_close_callback
         (trace ([Create []] ++ SetOnClose 6 :: [SetOnCreate 1] ++ WsClose :: [WsOpen])
                init)
  = [Call_onclose 6].
Proof.
  split.
  - exact (proj1 (proj1 (lifecycle_handler_called_once
                           "ws://localhost:8080/livegollection"
                           [Create []] [SetOnCreate 1] [WsClose] 5)
                        eq_refl eq_refl)).
  - exact (proj2 (proj2 (lifecycle_handler_called_once
                           "ws://localhost:8080/livegollection"
                           [Create []] [SetOnCreate 1] [WsOpen] 6)
                        eq_refl eq_refl)).
Defined.
